(** * Smart-city telemetry simulators and validator: a shallow embedding

    This development embeds the algorithmic core of
    - [src/data_generators/traffic_sensor_simulator.py]
      (CityGrid, TrafficSimulator, EventHubPublisher),
    - [src/data_generators/weather_simulator.py] (WeatherSimulator),
    - [src/utils/data_validator.py] (TrafficDataValidator._validate_schema),
    and proves properties of it.

    Modelling conventions.
    - Python [int] is [Z] (unbounded, no wrap-around).
    - Python [float] is idealised as an exact rational [Q]: no rounding
      error, no overflow.  [int(x)] is truncation toward zero and
      [round(x, nd)] is rounding to the nearest multiple of [10^-nd],
      ties to even.
    - The [random] module is an external collaborator.  Every call of
      it is replaced by an explicit draw that the function receives as an
      argument; the contract of the call ([randint(a, b)] lies in
      [[a, b]], [choice(s)] is an element of [s], ...) is a separate
      predicate on the draws, assumed only where a theorem needs it.
    - Python exceptions are [None] in an [option] result. *)

From Stdlib Require Import Ascii String ZArith QArith Qround Qminmax Lia.
From Stdlib Require Import DecimalString Reals Lra Lqa.
From stdpp Require Import gmap strings list.

Close Scope Q_scope.
Close Scope R_scope.
Open Scope Z_scope.

(** ** Python numerics *)

(** [int(x)] for a float [x]: truncation toward zero. *)
Definition int_of_float (x : Q) : Z := Z.quot (Qnum x) (Zpos (Qden x)).

(** Nearest integer, ties to even. *)
Definition round_half_even (x : Q) : Z :=
  let f := Qfloor x in
  match (x - inject_Z f ?= 1 # 2)%Q with
  | Lt => f
  | Gt => f + 1
  | Eq => if Z.even f then f else f + 1
  end.

(** [round(x, nd)] for a float [x] and [nd >= 0] decimals. *)
Definition round (x : Q) (nd : nat) : Q :=
  (inject_Z (round_half_even (x * inject_Z (10 ^ Z.of_nat nd)))
   / inject_Z (10 ^ Z.of_nat nd))%Q.

(** [x < y] on floats. *)
Definition Qltb (x y : Q) : bool := negb (Qle_bool y x).

(** [math.sqrt(n) < k] for a non-negative [int] [n] and a non-negative
    integer literal [k].  [math.sqrt] is monotone and exact on perfect
    squares, so the comparison is decided on the squares; lemma
    [sqrt_lt_spec] below relates it to the real square root. *)
Definition sqrt_lt (n k : Z) : bool := n <? k * k.

(** [range(n)]: empty when [n <= 0]. *)
Definition range (n : Z) : list Z := seqZ 0 n.

(** ** Python string formatting *)

(** [str(n)] / [f"{n}"] / [f"{n:d}"] for an [int]. *)
Definition str (n : Z) : string := NilEmpty.string_of_int (Z.to_int n).

Fixpoint zeros (k : nat) : string :=
  match k with
  | O => EmptyString
  | S k' => String "0"%char (zeros k')
  end.

(** [f"{n:0{w}d}"] for a non-negative [n]: decimal digits, left-padded
    with zeros to at least [w] characters. *)
Definition format_0d (w : nat) (n : Z) : string :=
  let s := str n in
  (zeros (w - String.length s) +:+ s)%string.

(** [chr(n)]: the code point [n], or [ValueError] outside
    [range(0x110000)].  A character that need not be ASCII is kept as its
    code point. *)
Definition chr (n : Z) : option Z :=
  if (0 <=? n) && (n <? 1114112) then Some n else None.

(** ** Data classes *)

Inductive District := downtown | residential | industrial | suburban.

Inductive Signal := red | yellow | green.

(** The weather condition names used by both simulators. *)
Inductive Condition := clear | cloudy | rain | heavy_rain | snow | fog.

Global Instance District_eq_dec : EqDecision District.
Proof. solve_decision. Defined.
Global Instance Signal_eq_dec : EqDecision Signal.
Proof. solve_decision. Defined.
Global Instance Condition_eq_dec : EqDecision Condition.
Proof. solve_decision. Defined.

Module Intersection.
(** [name] is [f"{chr(65+i)} St & {j+1} Ave"]: the code point of its
    first character and the ASCII remainder. *)
Record t := mk {
  intersection_id : string;
  name : Z * string;
  latitude : Q;
  longitude : Q;
  lanes_north_south : Z;
  lanes_east_west : Z;
  has_camera : bool;
  district : District
}.
End Intersection.

(** ** CityGrid *)

Module CityGrid.

(** The [districts] table of [_generate_intersections]. *)
Definition traffic_multiplier (d : District) : Q :=
  match d with
  | downtown => 1.5
  | residential => 0.7
  | industrial => 1.2
  | suburban => 0.5
  end%Q.

Definition camera_prob (d : District) : Q :=
  match d with
  | downtown => 0.8
  | residential => 0.3
  | industrial => 0.5
  | suburban => 0.2
  end%Q.

(** Lines 82-90: the district of cell [(i, j)].
    [distance = math.sqrt(i**2 + j**2)]. *)
Definition district_of (i j : Z) : District :=
  let distance2 := i ^ 2 + j ^ 2 in
  if sqrt_lt distance2 3 then downtown
  else if sqrt_lt distance2 5 then residential
  else if sqrt_lt distance2 7 then industrial
  else suburban.

(** The three [random] calls made for one cell. *)
Record CellDraw := {
  lanes_ns_draw : Z;      (* random.choice([2, 3, 4]) *)
  lanes_ew_draw : Z;      (* random.choice([2, 3, 4]) *)
  camera_draw : Q         (* random.random() *)
}.

Definition CellDraw_ok (d : CellDraw) : Prop :=
  lanes_ns_draw d ∈ [2; 3; 4] ∧ lanes_ew_draw d ∈ [2; 3; 4] ∧
  (0 <= camera_draw d)%Q ∧ (camera_draw d < 1)%Q.

(** [f"INT-{i:02d}{j:02d}"] for the cell [c = (i, j)]. *)
Definition cell_id (c : Z * Z) : string :=
  "INT-" +:+ format_0d 2 c.1 +:+ format_0d 2 c.2.

(** The body of the inner loop for cell [(i, j)]. *)
Definition make_intersection (city_center : Q * Q) (grid_size : Z)
    (rnd : Z → Z → CellDraw) (i j : Z) : option Intersection.t :=
  let '(lat_base, lon_base) := city_center in
  let lat := (lat_base + (inject_Z i - inject_Z grid_size / 2) * 0.01)%Q in
  let lon := (lon_base + (inject_Z j - inject_Z grid_size / 2) * 0.01)%Q in
  let district := district_of i j in
  initial ← chr (65 + i);
  Some (Intersection.mk
          (cell_id (i, j))
          (initial, " St & " +:+ str (j + 1) +:+ " Ave")
          (round lat 6)
          (round lon 6)
          (lanes_ns_draw (rnd i j))
          (lanes_ew_draw (rnd i j))
          (Qltb (camera_draw (rnd i j)) (camera_prob district))
          district).

(** The cells in the order the two nested loops visit them. *)
Definition cells (grid_size : Z) : list (Z * Z) :=
  i ← range grid_size; j ← range grid_size; [(i, j)].

Definition _generate_intersections (city_center : Q * Q) (grid_size : Z)
    (rnd : Z → Z → CellDraw) : option (list Intersection.t) :=
  mapM (λ c, make_intersection city_center grid_size rnd c.1 c.2)
       (cells grid_size).

(** The rule as the specification words it: Euclidean distance from
    the geometric centre [(N/2, N/2)] of the grid, the point the
    latitude and longitude offsets are measured from.  The distance
    [d] satisfies [4 d^2 = (2i - N)^2 + (2j - N)^2], so [d < k] is
    [sqrt(4 d^2) < 2k]. *)
Definition district_from_center (grid_size i j : Z) : District :=
  let four_d2 := (2 * i - grid_size) ^ 2 + (2 * j - grid_size) ^ 2 in
  if sqrt_lt four_d2 6 then downtown
  else if sqrt_lt four_d2 10 then residential
  else if sqrt_lt four_d2 14 then industrial
  else suburban.

End CityGrid.

(** ** Python [random] and [dict] helpers *)

(** [random.uniform(a, b)] is [a + (b - a) * random.random()]; [u] is
    the outcome of [random.random()], a float in [[0, 1)]. *)
Definition uniform (a b u : Q) : Q := (a + (b - a) * u)%Q.

Definition unit_draw (u : Q) : Prop := (0 <= u)%Q ∧ (u < 1)%Q.

(** An insertion-ordered [dict] as an association list without
    duplicate keys. *)
Fixpoint dict_get {K V} `{EqDecision K} (d : list (K * V)) (k : K) : option V :=
  match d with
  | [] => None
  | (k', v) :: rest => if decide (k = k') then Some v else dict_get rest k
  end.

(** [d[k] = v]: overwrite in place, or append a new key. *)
Fixpoint dict_set {K V} `{EqDecision K} (d : list (K * V)) (k : K) (v : V)
    : list (K * V) :=
  match d with
  | [] => [(k, v)]
  | (k', v') :: rest =>
      if decide (k = k') then (k, v) :: rest else (k', v') :: dict_set rest k v
  end.

(** [sum(l)] for a list of [int]. *)
Definition sum (l : list Z) : Z := foldl Z.add 0 l.

(** [a / b] on two [int]: true division, [ZeroDivisionError] when
    [b] is [0]. *)
Definition truediv (a b : Z) : option Q :=
  if b =? 0 then None else Some (inject_Z a / inject_Z b)%Q.

(** ** TrafficSimulator *)

Module TrafficReading.
Record t := mk {
  sensor_id : string;
  intersection_id : string;
  timestamp : string;
  vehicle_count : Z;
  average_speed : Q;
  occupancy_rate : Q;
  vehicle_types : list (string * Z);
  wait_time_seconds : Q;
  queue_length : Z;
  signal_state : Signal;
  latitude : Q;
  longitude : Q;
  district : District
}.
End TrafficReading.

(** The two things the simulator reads from a [datetime]. *)
Record datetime := {
  hour : Z;               (* timestamp.hour *)
  isoformat : string      (* timestamp.isoformat() *)
}.

Module TrafficSimulator.

Definition time_of_day_patterns : list (string * (Z * Z * Q)) :=
  [ ("night", (0, 6, 0.2%Q));
    ("morning_rush", (6, 9, 1.5%Q));
    ("midday", (9, 16, 0.8%Q));
    ("evening_rush", (16, 19, 1.6%Q));
    ("evening", (19, 24, 0.6%Q)) ].

(** The [for] loop of [get_traffic_multiplier]: [Some] is the value of
    the [return] inside the loop, [None] is falling out of it.
    [jitter] is the value of [random.uniform(0.8, 1.2)]. *)
Fixpoint matched_band (patterns : list (string * (Z * Z * Q)))
    (hour : Z) (jitter : Q) : option Q :=
  match patterns with
  | [] => None
  | (_, (start_hour, end_hour, multiplier)) :: rest =>
      if (start_hour <=? hour) && (hour <? end_hour)
      then Some (multiplier * jitter)%Q
      else matched_band rest hour jitter
  end.

(** [u] is the outcome of the [random.random()] inside
    [random.uniform(0.8, 1.2)]. *)
Definition get_traffic_multiplier (timestamp : datetime) (u : Q) : Q :=
  match matched_band time_of_day_patterns (hour timestamp)
                     (uniform 0.8 1.2 u) with
  | Some m => m
  | None => 1.0%Q
  end.

Definition weather_conditions : list (Condition * Q) :=
  [ (clear, 1.0%Q); (rain, 0.7%Q); (heavy_rain, 0.5%Q);
    (snow, 0.4%Q); (fog, 0.6%Q) ].

(** [condition] is the outcome of [random.choices(keys, weights)[0]];
    the look-up raises [KeyError] outside the table. *)
Definition get_weather_impact (condition : Condition) : option Q :=
  dict_get weather_conditions condition.

Definition district_multipliers (d : District) : Q :=
  match d with
  | downtown => 1.5
  | residential => 0.7
  | industrial => 1.2
  | suburban => 0.5
  end%Q.

(** Every [random] call of one [generate_reading]. *)
Record ReadingDraw := {
  time_u : Q;             (* random.random() inside uniform(0.8, 1.2) *)
  weather_draw : Condition; (* random.choices(...)[0] *)
  count_jitter : Z;       (* random.randint(-5, 5) *)
  car_u : Q;              (* ... inside uniform(0.75, 0.85) *)
  truck_u : Q;            (* ... inside uniform(0.05, 0.12) *)
  motorcycle_u : Q;       (* ... inside uniform(0.02, 0.05) *)
  bus_u : Q;              (* ... inside uniform(0.01, 0.03) *)
  wait_u : Q;             (* ... inside uniform(30, 120) *)
  signal_draw : Signal    (* random.choice(["red", "yellow", "green"]) *)
}.

Definition ReadingDraw_ok (d : ReadingDraw) : Prop :=
  unit_draw (time_u d) ∧
  weather_draw d ∈ weather_conditions.*1 ∧
  -5 <= count_jitter d <= 5 ∧
  unit_draw (car_u d) ∧ unit_draw (truck_u d) ∧
  unit_draw (motorcycle_u d) ∧ unit_draw (bus_u d) ∧ unit_draw (wait_u d).

Definition generate_reading (intersection : Intersection.t)
    (timestamp : datetime) (rnd : ReadingDraw) : option TrafficReading.t :=
  let base_capacity :=
    (Intersection.lanes_north_south intersection
     + Intersection.lanes_east_west intersection) * 10 in
  let time_multiplier := get_traffic_multiplier timestamp (time_u rnd) in
  let district_mult := district_multipliers (Intersection.district intersection) in
  weather_mult ← get_weather_impact (weather_draw rnd);
  let vehicle_count :=
    int_of_float (inject_Z base_capacity * time_multiplier
                  * district_mult * weather_mult)%Q in
  let vehicle_count := Z.max 0 (vehicle_count + count_jitter rnd) in
  let max_capacity := base_capacity * 2 in
  ratio ← truediv vehicle_count max_capacity;
  let occupancy_rate := Qmin 1.0 ratio in
  let base_speed := 35%Q in
  let average_speed := (base_speed * (1 - occupancy_rate * 0.7))%Q in
  let average_speed := Qmax 5 average_speed in
  let total_vehicles := vehicle_count in
  let fraction lo hi u :=
    int_of_float (inject_Z total_vehicles * uniform lo hi u)%Q in
  let vehicle_types :=
    [ ("car"%string, fraction 0.75%Q 0.85%Q (car_u rnd));
      ("truck"%string, fraction 0.05%Q 0.12%Q (truck_u rnd));
      ("motorcycle"%string, fraction 0.02%Q 0.05%Q (motorcycle_u rnd));
      ("bus"%string, fraction 0.01%Q 0.03%Q (bus_u rnd)) ] in
  let vehicle_types :=
    dict_set vehicle_types "car"%string
      (total_vehicles
       - sum ((filter (λ kv, kv.1 ≠ "car"%string) vehicle_types).*2)) in
  let wait_time := (occupancy_rate * uniform 30 120 (wait_u rnd))%Q in
  let queue_length :=
    int_of_float (occupancy_rate * inject_Z base_capacity * 0.5)%Q in
  let signal_state := signal_draw rnd in
  Some (TrafficReading.mk
          (Intersection.intersection_id intersection +:+ "-SENSOR-01")
          (Intersection.intersection_id intersection)
          (isoformat timestamp)
          vehicle_count
          (round average_speed 2)
          (round occupancy_rate 3)
          vehicle_types
          (round wait_time 1)
          queue_length
          signal_state
          (Intersection.latitude intersection)
          (Intersection.longitude intersection)
          (Intersection.district intersection)).

End TrafficSimulator.

(** ** EventHubPublisher *)

Module EventHubPublisher.

(** What [send_batch] leaves behind: the batches handed to
    [producer.send_batch], oldest first, and whether it returned or let
    a [ValueError] escape. *)
Inductive Outcome (A : Type) :=
  | Returned (sent : list (list A))
  | Raised (sent : list (list A)).
Arguments Returned {A} sent.
Arguments Raised {A} sent.

Section Publisher.
(** The channel constraint: a serialised event has a size in bytes,
    and a batch holds events up to [max_size] bytes in total. *)
Context {A : Type} (event_size : A → nat) (max_size : nat).

Definition batch_size (batch : list A) : nat := sum_list_with event_size batch.

(** [EventDataBatch.add]: [ValueError] when the event does not fit. *)
Definition batch_add (batch : list A) (event_data : A) : option (list A) :=
  if (batch_size batch + event_size event_data <=? max_size)%nat
  then Some (batch ++ [event_data])
  else None.

(** The [for] loop of [send_batch], from the state
    ([event_data_batch], batches sent so far). *)
Fixpoint send_loop (readings : list A) (event_data_batch : list A)
    (sent : list (list A)) : Outcome A :=
  match readings with
  | [] =>
      if (0 <? length event_data_batch)%nat
      then Returned (sent ++ [event_data_batch])
      else Returned sent
  | event_data :: rest =>
      match batch_add event_data_batch event_data with
      | Some batch' => send_loop rest batch' sent
      | None =>
          let sent := sent ++ [event_data_batch] in
          match batch_add [] event_data with
          | Some batch' => send_loop rest batch' sent
          | None => Raised sent
          end
      end
  end.

Definition send_batch (readings : list A) : Outcome A :=
  send_loop readings [] [].

(** A batch sequence is greedy when every batch but the last was
    closed because the first event of the next one did not fit. *)
Fixpoint greedy (batches : list (list A)) : Prop :=
  match batches with
  | b1 :: rest =>
      match rest with
      | [] => True
      | [] :: _ => False
      | (event_data :: _) :: _ =>
          (max_size < batch_size b1 + event_size event_data)%nat
      end ∧ greedy rest
  | [] => True
  end.
End Publisher.

End EventHubPublisher.

(** ** WeatherSimulator *)

Module WeatherReading.
Record t := mk {
  station_id : string;
  timestamp : string;
  temperature_f : Q;
  humidity : Q;
  precipitation_rate : Q;
  visibility_miles : Q;
  wind_speed_mph : Q;
  condition : Condition;
  latitude : Q;
  longitude : Q
}.
End WeatherReading.

Module WeatherSimulator.

(** The attributes of a [WeatherSimulator] object. *)
Record t := mk {
  city_center : Q * Q;
  current_condition : Condition;
  condition_duration : Z
}.

(** [__init__]. *)
Definition init (city_center : Q * Q) : t := mk city_center clear 0.

(** One row of [condition_params]. *)
Record Params := {
  temp : Q * Q;
  humidity : Q * Q;
  precip : Q;
  visibility : Q
}.

Definition condition_params (c : Condition) : Params :=
  match c with
  | clear => Build_Params (65, 85) (0.3, 0.5) 0 10
  | cloudy => Build_Params (60, 75) (0.5, 0.7) 0 10
  | rain => Build_Params (55, 70) (0.7, 0.9) 0.1 5
  | heavy_rain => Build_Params (50, 65) (0.85, 0.95) 0.5 2
  | snow => Build_Params (20, 35) (0.7, 0.9) 0.2 3
  | fog => Build_Params (55, 65) (0.9, 1.0) 0 0.5
  end%Q.

(** Every [random] call of one [generate_weather], and the clock. *)
Record Draw := {
  condition_draw : Condition; (* random.choices(...)[0], if redrawn *)
  duration_draw : Z;          (* random.randint(4, 20), if redrawn *)
  temp_u : Q;                 (* random.random() inside uniform over temp *)
  humidity_u : Q;             (* ... inside uniform over humidity *)
  precip_u : Q;               (* ... inside uniform(0.8, 1.2) *)
  visibility_u : Q;           (* ... inside uniform(0.9, 1.1) *)
  wind_u : Q;                 (* ... inside uniform(0, 25) *)
  now : string                (* datetime.now().isoformat() *)
}.

Definition Draw_ok (d : Draw) : Prop :=
  4 <= duration_draw d <= 20 ∧
  unit_draw (temp_u d) ∧ unit_draw (humidity_u d) ∧ unit_draw (precip_u d) ∧
  unit_draw (visibility_u d) ∧ unit_draw (wind_u d).

(** [generate_weather]: the object after the call and the reading. *)
Definition generate_weather (self : t) (rnd : Draw) : t * WeatherReading.t :=
  let self :=
    if bool_decide (condition_duration self = 0)
    then mk (city_center self) (condition_draw rnd) (duration_draw rnd)
    else self in
  let self :=
    mk (city_center self) (current_condition self)
       (condition_duration self - 1) in
  let params := condition_params (current_condition self) in
  (self,
   WeatherReading.mk
     "WEATHER-CENTRAL-01"
     (now rnd)
     (round (uniform (temp params).1 (temp params).2 (temp_u rnd)) 1)
     (round (uniform (humidity params).1 (humidity params).2 (humidity_u rnd)) 2)
     (precip params * uniform 0.8 1.2 (precip_u rnd))%Q
     (visibility params * uniform 0.9 1.1 (visibility_u rnd))%Q
     (round (uniform 0 25 (wind_u rnd)) 1)
     (current_condition self)
     (city_center self).1
     (city_center self).2).

(** One call as observed from outside: the object before, the draws,
    the object after, the reading. *)
Record Call := {
  before : t;
  draws : Draw;
  after : t;
  reading : WeatherReading.t
}.

(** A sequence of [generate_weather] calls on one object, one per
    element of [rnds]. *)
Fixpoint run (self : t) (rnds : list Draw) : list Call :=
  match rnds with
  | [] => []
  | rnd :: rest =>
      let '(self', r) := generate_weather self rnd in
      Build_Call self rnd self' r :: run self' rest
  end.

(** The object after the calls. *)
Definition final (self : t) (rnds : list Draw) : t :=
  foldl (λ s rnd, (generate_weather s rnd).1) self rnds.

End WeatherSimulator.

(** ** TrafficDataValidator *)

(** A deserialised JSON value. *)
#[local] Unset Elimination Schemes.
Inductive JValue :=
  | JNull
  | JBool (b : bool)
  | JInt (n : Z)
  | JFloat (x : Q)
  | JStr (s : string)
  | JList (l : list JValue)
  | JDict (d : list (string * JValue)).
#[local] Set Elimination Schemes.

Inductive PyType :=
  | NoneType | bool_t | int_t | float_t | str_t | list_t | dict_t.

Global Instance PyType_eq_dec : EqDecision PyType.
Proof. solve_decision. Defined.

(** [type(v)]. *)
Definition type (v : JValue) : PyType :=
  match v with
  | JNull => NoneType
  | JBool _ => bool_t
  | JInt _ => int_t
  | JFloat _ => float_t
  | JStr _ => str_t
  | JList _ => list_t
  | JDict _ => dict_t
  end.

(** [isinstance(v, ty)]: [bool] is a subclass of [int]. *)
Definition isinstance (v : JValue) (ty : PyType) : bool :=
  bool_decide (type v = ty) || bool_decide (type v = bool_t ∧ ty = int_t).

(** [str(ty)] for a class. *)
Definition type_repr (ty : PyType) : string :=
  match ty with
  | NoneType => "<class 'NoneType'>"
  | bool_t => "<class 'bool'>"
  | int_t => "<class 'int'>"
  | float_t => "<class 'float'>"
  | str_t => "<class 'str'>"
  | list_t => "<class 'list'>"
  | dict_t => "<class 'dict'>"
  end.

Module TrafficDataValidator.

Definition REQUIRED_FIELDS : list (string * PyType) :=
  [ ("sensor_id", str_t);
    ("intersection_id", str_t);
    ("timestamp", str_t);
    ("vehicle_count", int_t);
    ("average_speed", float_t);
    ("occupancy_rate", float_t);
    ("vehicle_types", dict_t);
    ("wait_time_seconds", float_t);
    ("queue_length", int_t);
    ("signal_state", str_t);
    ("latitude", float_t);
    ("longitude", float_t);
    ("district", str_t) ]%string.

(** The closed interval of every numeric field, bounds included. *)
Definition VALUE_RANGES : list (string * (Q * Q)) :=
  [ ("vehicle_count", (0, 1000));
    ("average_speed", (0, 100));
    ("occupancy_rate", (0.0, 1.0));
    ("wait_time_seconds", (0, 600));
    ("queue_length", (0, 500));
    ("latitude", (-90, 90));
    ("longitude", (-180, 180)) ]%string%Q.

Definition VALID_ENUMS : list (string * list string) :=
  [ ("signal_state", ["red"; "yellow"; "green"]);
    ("district", ["downtown"; "residential"; "industrial"; "suburban"]) ]%string.

(** One iteration of the loop of [_validate_schema]. *)
Definition check_field (message : gmap string JValue)
    (errors : list string) (field : string * PyType) : list string :=
  let '(field_name, field_type) := field in
  match message !! field_name with
  | None => errors ++ ["Missing field: " +:+ field_name]
  | Some JNull => errors ++ ["Null field: " +:+ field_name]
  | Some v =>
      if negb (isinstance v field_type)
      then errors ++ ["Invalid type for field " +:+ field_name +:+ ": "
                      +:+ type_repr (type v) +:+ " (expected "
                      +:+ type_repr field_type +:+ ")"]
      else errors
  end.

Definition _validate_schema (message : gmap string JValue) : list string :=
  foldl (check_field message) [] REQUIRED_FIELDS.

(** The categories of schema violation, and the category of a field of
    a message ([None]: the field conforms). *)
Inductive Violation := Missing | Null | TypeMismatch.

Definition violation (message : gmap string JValue)
    (field : string * PyType) : option Violation :=
  match message !! field.1 with
  | None => Some Missing
  | Some JNull => Some Null
  | Some v => if isinstance v field.2 then None else Some TypeMismatch
  end.

(** The text recorded for a violation. *)
Definition describe (message : gmap string JValue)
    (field : string * PyType) (c : Violation) : string :=
  match c with
  | Missing => "Missing field: " +:+ field.1
  | Null => "Null field: " +:+ field.1
  | TypeMismatch =>
      "Invalid type for field " +:+ field.1 +:+ ": "
      +:+ type_repr (default NoneType (type <$> message !! field.1))
      +:+ " (expected " +:+ type_repr field.2 +:+ ")"
  end.

End TrafficDataValidator.

(** ** ValidationStats *)

Module ValidationStats.

Record t := mk {
  total_messages : Z;
  valid_messages : Z;
  invalid_messages : Z;
  schema_errors : Z;
  value_errors : Z;
  null_errors : Z;
  sample_messages : list (gmap string JValue);
  error_messages : list (gmap string JValue);
  start_time : Q           (* seconds on the clock of datetime.now() *)
}.

Definition validation_rate (self : t) : Q :=
  if total_messages self =? 0 then 0.0%Q
  else (inject_Z (valid_messages self) / inject_Z (total_messages self) * 100)%Q.

(** [now] is the reading of [datetime.now()] taken by this call. *)
Definition duration_seconds (self : t) (now : Q) : Q := (now - start_time self)%Q.

(** The property reads the clock twice, for the test and for the
    division; a float division by zero raises [ZeroDivisionError]. *)
Definition messages_per_second (self : t) (now1 now2 : Q) : option Q :=
  if Qeq_bool (duration_seconds self now1) 0 then Some 0.0%Q
  else if Qeq_bool (duration_seconds self now2) 0 then None
  else Some (inject_Z (total_messages self) / duration_seconds self now2)%Q.

End ValidationStats.

(** ** The loop body of [main] *)

Module Main.

(** [sum(...)] over floats. *)
Definition fsum (l : list Q) : Q := foldl Qplus 0%Q l.

(** [x / n] for a float and an [int]. *)
Definition fdiv (x : Q) (n : Z) : option Q :=
  if n =? 0 then None else Some (x / inject_Z n)%Q.

(** The readings of one iteration, one per intersection in grid order;
    [rnd k] holds the draws for the intersection at position [k]. *)
Definition readings (intersections : list Intersection.t)
    (current_time : datetime) (rnd : nat → TrafficSimulator.ReadingDraw)
    : option (list TrafficReading.t) :=
  mapM (λ kx : nat * Intersection.t,
          TrafficSimulator.generate_reading kx.2 current_time (rnd kx.1))
       (imap pair intersections).

(** The three figures printed after the batch is sent: total vehicles,
    average speed, average occupancy. *)
Definition stats (readings : list TrafficReading.t) : option (Z * Q * Q) :=
  let total_vehicles := sum (TrafficReading.vehicle_count <$> readings) in
  avg_speed ← fdiv (fsum (TrafficReading.average_speed <$> readings))
                   (Z.of_nat (length readings));
  avg_occupancy ← fdiv (fsum (TrafficReading.occupancy_rate <$> readings))
                       (Z.of_nat (length readings));
  Some (total_vehicles, avg_speed, avg_occupancy).

End Main.

(** ** Python [str] methods and the placeholder pattern *)

(** [s.split(sep)] for a one-character separator: never empty, the
    empty string splits into one empty piece. *)
Fixpoint str_split_go (sep : ascii) (piece : string) (s : string) : list string :=
  match s with
  | EmptyString => [piece]
  | String c s' =>
      if Ascii.eqb c sep then piece :: str_split_go sep EmptyString s'
      else str_split_go sep (piece +:+ String c EmptyString) s'
  end.

Definition str_split (sep : ascii) (s : string) : list string :=
  str_split_go sep EmptyString s.

(** [s.replace(old, new)]: the occurrences of [old] are found from the
    left and do not overlap; [skip] counts the characters of a found
    occurrence still to pass over. *)
Fixpoint str_replace_go (old new : string) (skip : nat) (s : string) : string :=
  match s with
  | EmptyString => EmptyString
  | String c s' =>
      match skip with
      | S k => str_replace_go old new k s'
      | O =>
          if String.prefix old s
          then new +:+ str_replace_go old new (String.length old - 1) s'
          else String c (str_replace_go old new 0 s')
      end
  end.

(** With an empty [old], [new] goes before every character and at the
    end. *)
Fixpoint str_intersperse (new : string) (s : string) : string :=
  match s with
  | EmptyString => new
  | String c s' => new +:+ String c (str_intersperse new s')
  end.

Definition str_replace (old new s : string) : string :=
  match old with
  | EmptyString => str_intersperse new s
  | _ => str_replace_go old new 0 s
  end.

(** [p in s] on two strings. *)
Fixpoint str_contains (p s : string) : bool :=
  String.prefix p s ||
  match s with
  | EmptyString => false
  | String _ s' => str_contains p s'
  end.

(** The scanner for the pattern [\$\{([^}]+)\}]: outside a match, after
    a dollar sign, or inside the braces with the name read so far.  The
    class [[^}]+] takes every character up to the next closing brace, so a
    match begun at a dollar-brace pair either ends at that brace or, when
    the name is empty or no closing brace follows, fails without a later
    match inside the characters passed over. *)
Inductive ScanState := Outside | AfterDollar | InVar (name : string).

(** [re.findall(pattern, s)]: the names of the placeholders of [s],
    from the left. *)
Fixpoint findall_go (state : ScanState) (s : string) : list string :=
  match s with
  | EmptyString => []
  | String c s' =>
      match state with
      | Outside =>
          findall_go (if Ascii.eqb c "$" then AfterDollar else Outside) s'
      | AfterDollar =>
          findall_go (if Ascii.eqb c "{" then InVar EmptyString
                      else if Ascii.eqb c "$" then AfterDollar
                      else Outside) s'
      | InVar name =>
          if Ascii.eqb c "}" then
            match name with
            | EmptyString => findall_go Outside s'
            | _ => name :: findall_go Outside s'
            end
          else findall_go (InVar (name +:+ String c EmptyString)) s'
      end
  end.

Definition findall_placeholders (s : string) : list string :=
  findall_go Outside s.

(** [f"${{{var_name}}}"]. *)
Definition placeholder (var_name : string) : string :=
  "${" +:+ var_name +:+ "}".

(** ** ConfigLoader *)

(** A parsed YAML document has the shape of a JSON value; mappings have
    string keys and keep their order. *)
Abbreviation dict := (list (string * JValue)).

(** Python truthiness, [bool(v)]. *)
Definition truthy (v : JValue) : bool :=
  match v with
  | JNull => false
  | JBool b => b
  | JInt n => negb (n =? 0)
  | JFloat x => negb (Qeq_bool x 0)
  | JStr s => negb (String.eqb s EmptyString)
  | JList l => match l with [] => false | _ => true end
  | JDict d => match d with [] => false | _ => true end
  end.

(** A document in which no mapping, at any depth, has a key twice (as
    every Python [dict] is). *)
Fixpoint unique_keys (v : JValue) : Prop :=
  match v with
  | JDict d =>
      NoDup d.*1 ∧
      (fix all (d : dict) : Prop :=
         match d with
         | [] => True
         | (_, x) :: rest => unique_keys x ∧ all rest
         end) d
  | JList l =>
      (fix all (l : list JValue) : Prop :=
         match l with
         | [] => True
         | x :: rest => unique_keys x ∧ all rest
         end) l
  | _ => True
  end.

Module ConfigLoader.

(** The text of a [ConfigurationError], by the place that raises it:
    [No 'environments' section in config],
    [Environment '...' not found. Available: [...]] and
    [Required field missing: ...]. *)
Inductive ConfigMessage :=
  | NoEnvironmentsSection
  | EnvironmentNotFound (environment : string) (available : list string)
  | RequiredFieldMissing (field_path : string).

Inductive Exception :=
  | ConfigurationError (message : ConfigMessage)
  | FileNotFoundError (config_path : string)
  | YAMLError
  | AttributeError
  | TypeError
  | KeyError (key : string).

Inductive Result (A : Type) :=
  | Ok (a : A)
  | Raise (e : Exception).
Arguments Ok {A} a.
Arguments Raise {A} e.

(** What the loader reads from outside: the files that exist, each with
    what [yaml.safe_load] makes of it ([None]: it does not parse), the
    process environment and the clock. *)
Record World := {
  files : gmap string (option JValue);
  environ : gmap string string;
  utcnow : string              (* datetime.utcnow().isoformat() *)
}.

(** The attributes of a [ConfigLoader] object. *)
Record t := mk {
  config_path : string;
  _config : option dict;
  _environment : string
}.

(** [__init__]. *)
Definition __init__ (w : World) (config_path : string) : Result t :=
  match files w !! config_path with
  | None => Raise (FileNotFoundError config_path)
  | Some _ => Ok (mk config_path None (default "dev"%string (environ w !! "ENVIRONMENT"%string)))
  end.

(** The string case of [_substitute_env_vars]. *)
Definition substitute_string (environ : gmap string string) (config : string)
    : string :=
  foldl (λ result var_name,
           let env_value := default (placeholder var_name) (environ !! var_name) in
           str_replace (placeholder var_name) env_value result)
        config (findall_placeholders config).

Fixpoint _substitute_env_vars (environ : gmap string string) (config : JValue)
    {struct config} : JValue :=
  match config with
  | JDict d =>
      JDict ((fix items (d : dict) : dict :=
                match d with
                | [] => []
                | (k, v) :: rest => (k, _substitute_env_vars environ v) :: items rest
                end) d)
  | JList l =>
      JList ((fix items (l : list JValue) : list JValue :=
                match l with
                | [] => []
                | item :: rest => _substitute_env_vars environ item :: items rest
                end) l)
  | JStr s => JStr (substitute_string environ s)
  | _ => config
  end.

(** [_deep_merge(base, override)] for a mapping [override]; the inner
    loop runs over [override.items()] and updates [result], which starts
    as a copy of [base]. *)
Fixpoint deep_merge_value (base : dict) (override : JValue) {struct override}
    : dict :=
  match override with
  | JDict items =>
      (fix loop (items : dict) (result : dict) {struct items} : dict :=
         match items with
         | [] => result
         | (key, value) :: rest =>
             loop rest
               (match dict_get result key, value with
                | Some (JDict inner), JDict _ =>
                    dict_set result key (JDict (deep_merge_value inner value))
                | _, _ => dict_set result key value
                end)
         end) items base
  | _ => base
  end.

Definition _deep_merge (base override : dict) : dict :=
  deep_merge_value base (JDict override).

(** [_get_nested_value]: the loop over [path.split('.')]; Python's
    [None] is [JNull]. *)
Fixpoint walk (value : JValue) (keys : list string) : JValue :=
  match keys with
  | [] => value
  | key :: rest =>
      match value with
      | JDict d =>
          match dict_get d key with
          | Some v => walk v rest
          | None => JNull
          end
      | _ => JNull
      end
  end.

Definition _get_nested_value (config : JValue) (path : string) : JValue :=
  walk config (str_split "." path).

Definition required_fields : list string :=
  [ "azure.resource_group"; "storage.account_name"; "keyvault.name";
    "eventhub.namespace"; "databricks.workspace_url" ]%string.

(** The loop of [_validate] over the fields still to check. *)
Fixpoint validate_fields (config : JValue) (fields : list string) : Result unit :=
  match fields with
  | [] => Ok tt
  | field_path :: rest =>
      if negb (truthy (_get_nested_value config field_path))
      then Raise (ConfigurationError (RequiredFieldMissing field_path))
      else validate_fields config rest
  end.

Definition _validate (config : JValue) : Result unit :=
  validate_fields config required_fields.

(** [_merge_configs]; [config] is whatever the YAML file holds. *)
Definition _merge_configs (self : t) (w : World) (config : JValue) : Result dict :=
  match config with
  | JDict config =>
      let merged := filter (λ kv, kv.1 ≠ "environments"%string) config in
      match dict_get config "environments"%string with
      | None => Raise (ConfigurationError NoEnvironmentsSection)
      | Some (JDict environments) =>
          match dict_get environments (_environment self) with
          | None =>
              Raise (ConfigurationError
                       (EnvironmentNotFound (_environment self) environments.*1))
          | Some (JDict env_config) =>
              let merged := _deep_merge merged env_config in
              Ok (dict_set merged "_metadata"%string
                    (JDict [ ("environment", JStr (_environment self));
                             ("loaded_at", JStr (utcnow w));
                             ("config_path", JStr (config_path self)) ]%string))
          | Some _ => Raise AttributeError     (* override.items() *)
          end
      | Some (JList l) =>
          (* the message calls .keys() on a list; a list takes no str index *)
          if existsb (λ v, match v with
                           | JStr s => String.eqb s (_environment self)
                           | _ => false
                           end) l
          then Raise TypeError else Raise AttributeError
      | Some (JStr s) =>
          if str_contains (_environment self) s
          then Raise TypeError else Raise AttributeError
      | Some _ => Raise TypeError              (* not iterable *)
      end
  | _ => Raise AttributeError                  (* config.items() *)
  end.

(** [load]: the object after the call and what the call returns. *)
Definition load (w : World) (self : t) (environment : option string)
    : t * Result dict :=
  let self :=
    match environment with
    | Some (String _ _ as e) => mk (config_path self) (_config self) e
    | _ => self
    end in
  match files w !! config_path self with
  | None => (self, Raise (FileNotFoundError (config_path self)))
  | Some None => (self, Raise YAMLError)
  | Some (Some raw_config) =>
      let config := _substitute_env_vars (environ w) raw_config in
      match _merge_configs self w config with
      | Raise e => (self, Raise e)
      | Ok merged_config =>
          match _validate (JDict merged_config) with
          | Raise e => (self, Raise e)
          | Ok _ =>
              (mk (config_path self) (Some merged_config) (_environment self),
               Ok merged_config)
          end
      end
  end.

(** The [if self._config is None: self.load()] that opens [get],
    [__getitem__] and [to_dict]. *)
Definition ensure_loaded (w : World) (self : t) : t * Result dict :=
  match _config self with
  | Some config => (self, Ok config)
  | None => load w self None
  end.

Definition get (w : World) (self : t) (path : string) (default : JValue)
    : t * Result JValue :=
  match ensure_loaded w self with
  | (self, Raise e) => (self, Raise e)
  | (self, Ok config) =>
      (self,
       Ok (match _get_nested_value (JDict config) path with
           | JNull => default
           | value => value
           end))
  end.

Definition __getitem__ (w : World) (self : t) (key : string) : t * Result JValue :=
  match ensure_loaded w self with
  | (self, Raise e) => (self, Raise e)
  | (self, Ok config) =>
      (self, match dict_get config key with
             | Some v => Ok v
             | None => Raise (KeyError key)
             end)
  end.

Definition to_dict (w : World) (self : t) : t * Result dict :=
  ensure_loaded w self.

(** [get_config], on the module-level [_config_loader]. *)
Definition get_config (w : World) (_config_loader : option t)
    (environment : option string) (config_path : string)
    : option t * Result dict :=
  match _config_loader with
  | Some loader =>
      let '(loader, r) := load w loader environment in (Some loader, r)
  | None =>
      match __init__ w config_path with
      | Raise e => (None, Raise e)
      | Ok loader =>
          let '(loader, r) := load w loader environment in (Some loader, r)
      end
  end.

Definition reload_config (w : World) (_config_loader : option t)
    (environment : option string) : option t * Result dict :=
  get_config w None environment "config/settings.yaml".

End ConfigLoader.

(** ** Sample inputs *)

(** Cell (0, 0) of the default grid of [main]. *)
Definition sample_intersection : Intersection.t :=
  Intersection.mk "INT-0000" (65, " St & 1 Ave"%string) 40.6628%Q (-74.056)%Q
                  2 3 true downtown.

Definition sample_time : datetime :=
  {| hour := 8; isoformat := "2024-01-01T08:00:00" |}.

Definition sample_draw : TrafficSimulator.ReadingDraw :=
  {| TrafficSimulator.time_u := 0.5%Q;
     TrafficSimulator.weather_draw := rain;
     TrafficSimulator.count_jitter := 2;
     TrafficSimulator.car_u := 0.5%Q;
     TrafficSimulator.truck_u := 0.5%Q;
     TrafficSimulator.motorcycle_u := 0.5%Q;
     TrafficSimulator.bus_u := 0.5%Q;
     TrafficSimulator.wait_u := 0.5%Q;
     TrafficSimulator.signal_draw := green |}.

Definition sample_weather_draws : list WeatherSimulator.Draw :=
  [ WeatherSimulator.Build_Draw rain 4 0.5%Q 0.5%Q 0.5%Q 0.5%Q 0.5%Q
      "2024-01-01T08:00:00";
    WeatherSimulator.Build_Draw fog 20 0.1%Q 0.2%Q 0.3%Q 0.4%Q 0.5%Q
      "2024-01-01T08:05:00";
    WeatherSimulator.Build_Draw snow 7 0 0 0 0 0%Q
      "2024-01-01T08:10:00";
    WeatherSimulator.Build_Draw clear 5 0.9%Q 0.9%Q 0.9%Q 0.9%Q 0.9%Q
      "2024-01-01T08:15:00";
    WeatherSimulator.Build_Draw cloudy 12 0.5%Q 0.5%Q 0.5%Q 0.5%Q 0.5%Q
      "2024-01-01T08:20:00" ].

(** A reading as the validator receives it after deserialisation. *)
Definition sample_message : gmap string JValue :=
  list_to_map
    [ ("sensor_id", JStr "INT-0000-SENSOR-01");
      ("intersection_id", JStr "INT-0000");
      ("timestamp", JStr "2024-01-01T08:00:00");
      ("vehicle_count", JInt 80);
      ("average_speed", JFloat 15.4%Q);
      ("occupancy_rate", JFloat 0.8%Q);
      ("vehicle_types",
       JDict [ ("car", JInt 71); ("truck", JInt 6);
               ("motorcycle", JInt 2); ("bus", JInt 1) ]);
      ("wait_time_seconds", JFloat 60.0%Q);
      ("queue_length", JInt 20);
      ("signal_state", JStr "green");
      ("latitude", JFloat 40.6628%Q);
      ("longitude", JFloat (-74.056)%Q);
      ("district", JStr "downtown") ]%string.

(** A settings file with two environments, and the world around it. *)
Definition sample_config : JValue :=
  JDict
    [ ("azure", JDict [ ("resource_group", JStr "rg-global");
                        ("location", JStr "eastus") ]);
      ("storage", JDict [ ("account_name", JStr "${STORAGE_ACCOUNT}") ]);
      ("keyvault", JDict [ ("name", JStr "kv-smartcity") ]);
      ("eventhub", JDict [ ("namespace", JStr "ehns-${STAGE}-01") ]);
      ("databricks", JDict [ ("workspace_url", JStr "https://adb.example") ]);
      ("environments",
       JDict
         [ ("dev", JDict [ ("azure", JDict [ ("resource_group", JStr "rg-dev") ]);
                           ("debug", JBool true) ]);
           ("prod", JDict [ ("azure", JDict [ ("resource_group", JStr "rg-prod") ]);
                            ("keyvault", JDict [ ("name", JStr "") ]) ]) ]) ]%string.

Definition sample_world : ConfigLoader.World :=
  {| ConfigLoader.files := {[ "config/settings.yaml"%string := Some sample_config ]};
     ConfigLoader.environ := {[ "STORAGE_ACCOUNT"%string := "sadev"%string ]};
     ConfigLoader.utcnow := "2024-01-01T00:00:00" |}.

Definition sample_loader : ConfigLoader.t :=
  ConfigLoader.mk "config/settings.yaml" None "dev".

(** * Theorems *)

(** ** Numerics *)

Lemma sqrt_lt_spec (n k : Z) :
  0 <= n → 0 <= k → (sqrt_lt n k = true ↔ (sqrt (IZR n) < IZR k)%R).
Proof.
  intros Hn Hk. unfold sqrt_lt. rewrite Z.ltb_lt.
  assert (Hk' : (0 <= IZR k)%R) by (apply IZR_le; lia).
  assert (Hn' : (0 <= IZR n)%R) by (apply IZR_le; lia).
  rewrite <- (sqrt_square (IZR k)) at 1 by assumption.
  rewrite <- mult_IZR. split.
  - intros H. apply sqrt_lt_1_alt. split; [assumption|]. by apply IZR_lt.
  - intros H. apply lt_IZR. apply sqrt_lt_0_alt. assumption.
Qed.

(** ** CityGrid *)

Section grid.
Import CityGrid.

Lemma elem_of_cells (N i j : Z) :
  (i, j) ∈ cells N ↔ (0 <= i < N ∧ 0 <= j < N).
Proof.
  unfold cells, range. rewrite list_elem_of_bind. split.
  - intros (i' & Hj & Hi). apply list_elem_of_bind in Hj as (j' & Hij & Hj).
    apply list_elem_of_singleton in Hij. injection Hij as -> ->.
    apply elem_of_seqZ in Hi, Hj. lia.
  - intros [Hi Hj]. exists i. split; [|apply elem_of_seqZ; lia].
    apply list_elem_of_bind. exists j. split; [by apply list_elem_of_singleton|].
    apply elem_of_seqZ; lia.
Qed.

Lemma length_bind_const {A B} (f : A → list B) (l : list A) (n : nat) :
  (∀ x, length (f x) = n) → length (l ≫= f) = (length l * n)%nat.
Proof.
  intros Hf. induction l as [|x l IH]; [done|].
  cbn. rewrite length_app, Hf. cbn in IH. rewrite IH. lia.
Qed.

Lemma length_cells (N : Z) :
  length (cells N) = (Z.to_nat N * Z.to_nat N)%nat.
Proof.
  unfold cells, range. rewrite (length_bind_const _ _ (Z.to_nat N)).
  - by rewrite length_seqZ.
  - intros i. rewrite (length_bind_const _ _ 1%nat) by done.
    rewrite length_seqZ. lia.
Qed.

Lemma NoDup_cells (N : Z) : NoDup (cells N).
Proof.
  unfold cells, range. apply NoDup_bind; [| |apply NoDup_seqZ].
  - intros i i' [a b] _ _ Hi Hi'.
    apply list_elem_of_bind in Hi as (j & Hj & _).
    apply list_elem_of_bind in Hi' as (j' & Hj' & _).
    apply list_elem_of_singleton in Hj, Hj'. congruence.
  - intros i _. apply NoDup_bind; [| |apply NoDup_seqZ].
    + intros j j' c _ _ Hj Hj'.
      apply list_elem_of_singleton in Hj, Hj'. congruence.
    + intros j _. apply NoDup_singleton.
Qed.

(** The loop body raises exactly when [chr] does. *)
Lemma make_intersection_is_Some center N rnd i j :
  is_Some (make_intersection center N rnd i j) ↔ -65 <= i < 1114047.
Proof.
  unfold make_intersection, chr. destruct center as [lat_base lon_base].
  destruct (Z.leb_spec 0 (65 + i)), (Z.ltb_spec (65 + i) 1114112);
    cbn; split; intros H'; try lia; try (by eexists);
    by destruct H' as [? [=]].
Qed.

Lemma make_intersection_Some center N rnd i j x :
  make_intersection center N rnd i j = Some x →
  Intersection.intersection_id x = cell_id (i, j) ∧
  Intersection.district x = district_of i j ∧
  Intersection.lanes_north_south x = lanes_ns_draw (rnd i j) ∧
  Intersection.lanes_east_west x = lanes_ew_draw (rnd i j).
Proof.
  unfold make_intersection. destruct center as [lat_base lon_base].
  destruct (chr (65 + i)); cbn; [|done]. by intros [= <-].
Qed.

(** The generator returns as long as every row letter exists, and then
    the result lists the cells in loop order. *)
Lemma _generate_intersections_is_Some center N rnd :
  N <= 1114047 → is_Some (_generate_intersections center N rnd).
Proof.
  intros HN. apply mapM_is_Some, Forall_forall. intros [i j] Hc.
  apply elem_of_cells in Hc. apply make_intersection_is_Some. cbn. lia.
Qed.

Lemma _generate_intersections_Some center N rnd l :
  _generate_intersections center N rnd = Some l →
  Forall2 (λ c x, make_intersection center N rnd c.1 c.2 = Some x)
          (cells N) l.
Proof. apply mapM_Some_1. Qed.

Lemma _generate_intersections_ids center N rnd l :
  _generate_intersections center N rnd = Some l →
  Intersection.intersection_id <$> l = cell_id <$> cells N.
Proof.
  intros H. apply _generate_intersections_Some in H.
  induction H as [|[i j] x cs l Hx _ IH]; [done|].
  cbn. f_equal; [|done]. by apply make_intersection_Some in Hx as [-> _].
Qed.

Lemma _generate_intersections_districts center N rnd l :
  _generate_intersections center N rnd = Some l →
  Intersection.district <$> l = (λ c, district_of c.1 c.2) <$> cells N.
Proof.
  intros H. apply _generate_intersections_Some in H.
  induction H as [|[i j] x cs l Hx _ IH]; [done|].
  cbn. f_equal; [|done]. by apply make_intersection_Some in Hx as (_ & -> & _).
Qed.

Lemma _generate_intersections_raises center N rnd :
  1114047 < N → _generate_intersections center N rnd = None.
Proof.
  intros HN. apply mapM_None, Exists_exists. exists (1114047, 0). split.
  - apply elem_of_cells. lia.
  - apply eq_None_not_Some. rewrite make_intersection_is_Some. cbn. lia.
Qed.

End grid.

Section grid_ids.
Import CityGrid.

Lemma NoDup_fmap_inj_on {A B} (f : A → B) (l : list A) (x y : A) :
  NoDup (f <$> l) → x ∈ l → y ∈ l → f x = f y → x = y.
Proof.
  induction l as [|a l IH]; intros Hnd Hx Hy Hxy; [by apply elem_of_nil in Hx|].
  rewrite fmap_cons in Hnd. apply NoDup_cons in Hnd as [Ha Hnd].
  apply elem_of_cons in Hx as [->|Hx], Hy as [->|Hy]; [done| | |by apply IH].
  - destruct Ha. rewrite Hxy. by apply list_elem_of_fmap_2.
  - destruct Ha. rewrite <- Hxy. by apply list_elem_of_fmap_2.
Qed.

(** Up to 99 the two-digit format has exactly two characters. *)
Lemma format_02d_two_chars (i : Z) :
  0 <= i < 100 → ∃ a b, format_0d 2 i = String a (String b EmptyString).
Proof.
  intros Hi.
  assert (H : Forall (λ i, String.length (format_0d 2 i) = 2%nat) (seqZ 0 100))
    by (apply (bool_decide_unpack _); vm_compute; exact I).
  rewrite Forall_seqZ in H. specialize (H i ltac:(lia)).
  destruct (format_0d 2 i) as [|a [|b [|c s]]]; try discriminate. eauto.
Qed.

Lemma format_02d_100 : format_0d 2 100 = "100"%string.
Proof. reflexivity. Qed.

Lemma format_02d_inj (i j : Z) :
  0 <= i <= 100 → 0 <= j <= 100 → format_0d 2 i = format_0d 2 j → i = j.
Proof.
  intros Hi Hj. apply (NoDup_fmap_inj_on (format_0d 2) (seqZ 0 101)).
  - apply (bool_decide_unpack _). vm_compute. exact I.
  - apply elem_of_seqZ. lia.
  - apply elem_of_seqZ. lia.
Qed.

(** On indices up to 100 the identifier determines the cell. *)
Lemma cell_id_inj (c c' : Z * Z) :
  0 <= c.1 <= 100 → 0 <= c.2 <= 100 →
  0 <= c'.1 <= 100 → 0 <= c'.2 <= 100 →
  cell_id c = cell_id c' → c = c'.
Proof.
  destruct c as [i j], c' as [i' j']. unfold cell_id. cbn [fst snd].
  intros Hi Hj Hi' Hj' H.
  assert (Hs : ∀ k, 0 <= k <= 100 →
            (∃ a b, format_0d 2 k = String a (String b EmptyString))
            ∨ k = 100).
  { intros k Hk. destruct (decide (k = 100)); [by right|left].
    apply format_02d_two_chars. lia. }
  destruct (Hs i Hi) as [(a & b & Ei)| ->], (Hs i' Hi') as [(a' & b' & Ei')| ->].
  - rewrite Ei, Ei' in H. cbn in H. injection H as -> -> H.
    f_equal; apply format_02d_inj; congruence || done.
  - exfalso. rewrite Ei, format_02d_100 in H. cbn in H. injection H as -> -> H.
    destruct (Hs j Hj) as [(c & d & Ej)| ->].
    + rewrite Ej in H. injection H as -> H.
      destruct (Hs j' Hj') as [(c' & d' & Ej')| ->].
      * by rewrite Ej' in H.
      * by rewrite format_02d_100 in H.
    + by rewrite format_02d_100 in H.
  - exfalso. rewrite Ei', format_02d_100 in H. cbn in H. injection H as <- <- H.
    destruct (Hs j' Hj') as [(c & d & Ej')| ->].
    + rewrite Ej' in H. injection H as <- H.
      destruct (Hs j Hj) as [(c' & d' & Ej)| ->].
      * by rewrite Ej in H.
      * by rewrite format_02d_100 in H.
    + by rewrite format_02d_100 in H.
  - rewrite format_02d_100 in H. cbn in H. injection H as H.
    f_equal. by apply format_02d_inj.
Qed.

(** From 102 on, two cells print the same identifier. *)
Lemma cell_id_collision : cell_id (10, 100) = cell_id (101, 0).
Proof. reflexivity. Qed.

End grid_ids.

(** C1 (as the code has it).  In a 10 x 10 grid built from any centre and
    any random draws, the intersection of the middle cell (5, 5), which is
    at distance 0 from the geometric centre, is labelled suburban, and the
    corner cell (0, 0), at distance about 7.07 from the centre, is labelled
    downtown: the label is thresholded on the distance from cell (0, 0),
    while the rule on the distance from the centre gives downtown and
    suburban respectively. *)
Theorem C1_district_measured_from_corner (center : Q * Q)
    (rnd : Z → Z → CityGrid.CellDraw) :
  ∃ l mid corner,
    CityGrid._generate_intersections center 10 rnd = Some l ∧
    l !! 55%nat = Some mid ∧ l !! 0%nat = Some corner ∧
    Intersection.intersection_id mid = "INT-0505"%string ∧
    Intersection.district mid = suburban ∧
    CityGrid.district_from_center 10 5 5 = downtown ∧
    Intersection.intersection_id corner = "INT-0000"%string ∧
    Intersection.district corner = downtown ∧
    CityGrid.district_from_center 10 0 0 = suburban.
Proof.
  destruct (_generate_intersections_is_Some center 10 rnd) as [l Hl]; [lia|].
  pose proof (_generate_intersections_Some _ _ _ _ Hl) as H.
  destruct (Forall2_lookup_l _ _ _ 55%nat (5, 5) H) as (mid & Hmid & Hm);
    [reflexivity|].
  destruct (Forall2_lookup_l _ _ _ 0%nat (0, 0) H) as (corner & Hcorner & Hc);
    [reflexivity|].
  apply make_intersection_Some in Hm as (Hm1 & Hm2 & _).
  apply make_intersection_Some in Hc as (Hc1 & Hc2 & _).
  exists l, mid, corner. repeat split; try done.
Qed.

(** The label of every generated intersection is a function of its cell
    (i, j) alone: it depends on neither the grid size, the centre nor the
    random draws. *)
Lemma district_assignment_deterministic (center center' : Q * Q) (N : Z)
    (rnd rnd' : Z → Z → CityGrid.CellDraw) (l l' : list Intersection.t) :
  CityGrid._generate_intersections center N rnd = Some l →
  CityGrid._generate_intersections center' N rnd' = Some l' →
  Intersection.district <$> l = Intersection.district <$> l'.
Proof.
  intros H H'. apply _generate_intersections_districts in H, H'. congruence.
Qed.

(** The bound 101 is tight: in every grid of size 102 or more that the
    builder returns, the cells (10, 100) and (101, 0) share an
    identifier. *)
Lemma ids_collide_from_102 (center : Q * Q) (N : Z)
    (rnd : Z → Z → CityGrid.CellDraw) (l : list Intersection.t) :
  102 <= N →
  CityGrid._generate_intersections center N rnd = Some l →
  ¬ NoDup (Intersection.intersection_id <$> l).
Proof.
  intros HN Hl Hnd. rewrite (_generate_intersections_ids _ _ _ _ Hl) in Hnd.
  assert (E : (10, 100) = (101, 0)); [|discriminate E].
  apply (NoDup_fmap_inj_on CityGrid.cell_id (CityGrid.cells N)).
  - exact Hnd.
  - apply elem_of_cells. lia.
  - apply elem_of_cells. lia.
  - exact cell_id_collision.
Qed.

(** C3 (as stated) fails: it is not the case that for every grid size
    N > 0, centre and draws the builder returns N*N intersections with
    pairwise distinct identifiers.  At N = 102 the cells (10, 100) and
    (101, 0) both get INT-10100. *)
Lemma C3_ids_collide_at_102 :
  ¬ (∀ (center : Q * Q) (N : Z) (rnd : Z → Z → CityGrid.CellDraw),
       0 < N →
       ∃ l, CityGrid._generate_intersections center N rnd = Some l ∧
            Z.of_nat (length l) = N * N ∧
            NoDup (Intersection.intersection_id <$> l)).
Proof.
  intros H.
  destruct (H (0%Q, 0%Q) 102 (λ _ _, CityGrid.Build_CellDraw 2 2 0%Q))
    as (l & Hl & _ & Hnd); [lia|].
  rewrite (_generate_intersections_ids _ _ _ _ Hl) in Hnd.
  assert (E : (10, 100) = (101, 0)); [|discriminate E].
  apply (NoDup_fmap_inj_on CityGrid.cell_id (CityGrid.cells 102)).
  - exact Hnd.
  - apply elem_of_cells. lia.
  - apply elem_of_cells. lia.
  - exact cell_id_collision.
Qed.

(** C3 (amended).  For every centre, draws and grid size N with
    0 < N <= 1114047 the builder returns exactly N*N intersections, and
    when N <= 101 their identifiers are pairwise distinct. *)
Theorem C3_grid_count_and_unique_ids (center : Q * Q) (N : Z)
    (rnd : Z → Z → CityGrid.CellDraw) :
  0 < N <= 1114047 →
  ∃ l, CityGrid._generate_intersections center N rnd = Some l ∧
       Z.of_nat (length l) = N * N ∧
       (N <= 101 → NoDup (Intersection.intersection_id <$> l)).
Proof.
  intros HN.
  destruct (_generate_intersections_is_Some center N rnd) as [l Hl]; [lia|].
  exists l. split; [done|]. split.
  - unfold CityGrid._generate_intersections in Hl.
    apply length_mapM in Hl. rewrite <- Hl, length_cells. lia.
  - intros H101. rewrite (_generate_intersections_ids _ _ _ _ Hl).
    apply NoDup_fmap_2_strong; [|apply NoDup_cells].
    intros [i j] [i' j'] Hc Hc' E.
    apply elem_of_cells in Hc, Hc'. apply cell_id_inj; cbn; (lia || done).
Qed.

Lemma C3_grid_count_and_unique_ids_witness :
  0 < 2 <= 1114047 ∧
  ∃ l, CityGrid._generate_intersections (0%Q, 0%Q) 2
         (λ _ _, CityGrid.Build_CellDraw 2 3 0.5%Q) = Some l ∧
       Z.of_nat (length l) = 2 * 2 ∧
       (2 <= 101 → NoDup (Intersection.intersection_id <$> l)).
Proof.
  split; [lia|].
  apply (C3_grid_count_and_unique_ids (0%Q, 0%Q) 2
           (λ _ _, CityGrid.Build_CellDraw 2 3 0.5%Q)).
  lia.
Defined.

(** ** Numerics, continued *)

Lemma int_of_float_nonneg (x : Q) : (0 <= x)%Q → 0 <= int_of_float x.
Proof.
  destruct x as [n d]. unfold Qle, int_of_float. cbn. intros H.
  apply Z.quot_pos; lia.
Qed.

Lemma int_of_float_le (x : Q) :
  (0 <= x)%Q → (inject_Z (int_of_float x) <= x)%Q.
Proof.
  destruct x as [n d]. unfold Qle, int_of_float. cbn. intros H.
  rewrite Z.quot_div_nonneg by lia.
  rewrite Z.mul_1_r in *. rewrite Z.mul_comm. apply Z.mul_div_le. lia.
Qed.

Lemma round_half_even_ge (x : Q) (m : Z) :
  (inject_Z m <= x)%Q → m <= round_half_even x.
Proof.
  intros H. apply Qfloor_resp_le in H. rewrite Qfloor_Z in H.
  unfold round_half_even. repeat case_match; lia.
Qed.

Lemma round_half_even_le (x : Q) (m : Z) :
  (x <= inject_Z m)%Q → round_half_even x <= m.
Proof.
  intros H. pose proof (Qfloor_resp_le _ _ H) as Hf. rewrite Qfloor_Z in Hf.
  unfold round_half_even.
  destruct (decide (Qfloor x = m)) as [E|NE]; [|repeat case_match; lia].
  rewrite <- E in H.
  destruct (Qcompare (x - inject_Z (Qfloor x)) (1 # 2)) eqn:Hc; [|lia|].
  - apply Qeq_alt in Hc. lra.
  - apply Qgt_alt in Hc. lra.
Qed.

Lemma pow10_pos (nd : nat) : 0 < 10 ^ Z.of_nat nd.
Proof. apply Z.pow_pos_nonneg; lia. Qed.

(** Rounding to decimals never crosses an integer. *)
Lemma round_ge (x : Q) (nd : nat) (m : Z) :
  (inject_Z m <= x)%Q → (inject_Z m <= round x nd)%Q.
Proof.
  intros H. unfold round. pose proof (pow10_pos nd) as Hp.
  set (s := 10 ^ Z.of_nat nd) in *.
  assert (Hs : (0 < inject_Z s)%Q) by (rewrite <- (Zlt_Qlt 0); lia).
  apply Qle_shift_div_l; [done|]. rewrite <- inject_Z_mult, <- Zle_Qle.
  apply round_half_even_ge. rewrite inject_Z_mult.
  apply Qmult_le_compat_r; [done|]. by apply Qlt_le_weak.
Qed.

Lemma round_le (x : Q) (nd : nat) (m : Z) :
  (x <= inject_Z m)%Q → (round x nd <= inject_Z m)%Q.
Proof.
  intros H. unfold round. pose proof (pow10_pos nd) as Hp.
  set (s := 10 ^ Z.of_nat nd) in *.
  assert (Hs : (0 < inject_Z s)%Q) by (rewrite <- (Zlt_Qlt 0); lia).
  apply Qle_shift_div_r; [done|]. rewrite <- inject_Z_mult, <- Zle_Qle.
  apply round_half_even_le. rewrite inject_Z_mult.
  apply Qmult_le_compat_r; [done|]. by apply Qlt_le_weak.
Qed.

Lemma uniform_bounds (a b u : Q) :
  (a <= b)%Q → unit_draw u → (a <= uniform a b u)%Q ∧ (uniform a b u <= b)%Q.
Proof.
  intros Hab [H0 H1]. unfold uniform.
  assert ((0 <= (b - a) * u)%Q) by (apply Qmult_le_0_compat; lra).
  assert (((b - a) * u <= (b - a) * 1)%Q).
  { rewrite !(Qmult_comm (b - a)). apply Qmult_le_compat_r; lra. }
  split; lra.
Qed.

(** ** TrafficSimulator *)

Section traffic.
Import TrafficSimulator.

Lemma weather_draw_cases (c : Condition) :
  c ∈ weather_conditions.*1 →
  c = clear ∨ c = rain ∨ c = heavy_rain ∨ c = snow ∨ c = fog.
Proof. cbn. rewrite !elem_of_cons, elem_of_nil. tauto. Qed.

Lemma get_weather_impact_Some (c : Condition) :
  c ∈ weather_conditions.*1 →
  ∃ wm, get_weather_impact c = Some wm ∧ (0 < wm)%Q.
Proof.
  intros H. apply weather_draw_cases in H.
  destruct H as [-> | [-> | [-> | [-> | ->]]]]; eexists; (split; [reflexivity|]);
    reflexivity.
Qed.

(** [generate_reading] returns exactly when the table look-up and the
    division succeed. *)
Lemma generate_reading_is_Some x ts rnd :
  is_Some (generate_reading x ts rnd) ↔
  weather_draw rnd ∈ weather_conditions.*1 ∧
  Intersection.lanes_north_south x + Intersection.lanes_east_west x ≠ 0.
Proof.
  unfold generate_reading. split.
  - intros [r H].
    destruct (get_weather_impact (weather_draw rnd)) as [wm|] eqn:Hw; [|done].
    cbn [mbind option_bind] in H.
    destruct (truediv _ _) as [ratio|] eqn:Hr; [|done]. split.
    + unfold get_weather_impact in Hw.
      destruct (weather_draw rnd); cbn in Hw |- *; try done;
        rewrite !elem_of_cons; tauto.
    + unfold truediv in Hr. destruct (Z.eqb_spec
        ((Intersection.lanes_north_south x + Intersection.lanes_east_west x)
         * 10 * 2) 0); [done|lia].
  - intros [Hw Hl]. apply get_weather_impact_Some in Hw as (wm & -> & _).
    cbn [mbind option_bind]. unfold truediv.
    destruct (Z.eqb_spec
        ((Intersection.lanes_north_south x + Intersection.lanes_east_west x)
         * 10 * 2) 0); [lia|]. by eexists.
Qed.

(** What a returned reading holds. *)
Lemma generate_reading_Some x ts rnd r :
  generate_reading x ts rnd = Some r →
  let max_capacity :=
    (Intersection.lanes_north_south x + Intersection.lanes_east_west x)
    * 10 * 2 in
  let total := TrafficReading.vehicle_count r in
  let truck := int_of_float (inject_Z total * uniform 0.05 0.12 (truck_u rnd)) in
  let motorcycle :=
    int_of_float (inject_Z total * uniform 0.02 0.05 (motorcycle_u rnd)) in
  let bus := int_of_float (inject_Z total * uniform 0.01 0.03 (bus_u rnd)) in
  let occupancy := Qmin 1.0 (inject_Z total / inject_Z max_capacity) in
  0 <= total ∧ max_capacity ≠ 0 ∧
  TrafficReading.occupancy_rate r = round occupancy 3 ∧
  TrafficReading.average_speed r
    = round (Qmax 5 (35 * (1 - occupancy * 0.7))) 2 ∧
  TrafficReading.vehicle_types r
    = [ ("car", total - (0 + truck + motorcycle + bus));
        ("truck", truck); ("motorcycle", motorcycle); ("bus", bus) ]%string.
Proof.
  unfold generate_reading. intros H.
  destruct (get_weather_impact (weather_draw rnd)) as [wm|] eqn:Hw; [|done].
  cbn [mbind option_bind] in H.
  destruct (truediv _ _) as [ratio|] eqn:Hr; [|done].
  cbn [mbind option_bind] in H. injection H as <-.
  unfold truediv in Hr.
  destruct (Z.eqb_spec
        ((Intersection.lanes_north_south x + Intersection.lanes_east_west x)
         * 10 * 2) 0) as [|Hne]; [done|]. injection Hr as <-.
  cbn. repeat split; (lia || done).
Qed.

End traffic.

Section traffic_claims.
Import TrafficSimulator.

(** A fraction of the total, truncated: between 0 and [hi] of it. *)
Lemma fraction_bounds (total : Z) (lo hi u : Q) :
  0 <= total → (0 <= lo)%Q → (lo <= hi)%Q → unit_draw u →
  0 <= int_of_float (inject_Z total * uniform lo hi u) ∧
  (inject_Z (int_of_float (inject_Z total * uniform lo hi u))
   <= inject_Z total * hi)%Q.
Proof.
  intros Ht Hlo Hhi Hu.
  destruct (uniform_bounds lo hi u Hhi Hu) as [H1 H2].
  assert (HT : (0 <= inject_Z total)%Q) by (by rewrite <- (Zle_Qle 0)).
  assert (H0 : (0 <= inject_Z total * uniform lo hi u)%Q)
    by (apply Qmult_le_0_compat; lra).
  split; [by apply int_of_float_nonneg|].
  eapply Qle_trans; [by apply int_of_float_le|].
  rewrite !(Qmult_comm (inject_Z total)). by apply Qmult_le_compat_r.
Qed.

Lemma hour_cases (h : Z) : 0 <= h <= 23 → h ∈ seqZ 0 24.
Proof. intros H. apply elem_of_seqZ. lia. Qed.

(** Every hour of the day falls in exactly one band, so the loop of
    [get_traffic_multiplier] returns from inside. *)
Lemma matched_band_Some (h : Z) (jitter : Q) :
  0 <= h <= 23 →
  ∃ band, matched_band time_of_day_patterns h jitter = Some (band * jitter)%Q ∧
          band ∈ [0.2; 1.5; 0.8; 1.6; 0.6]%Q ∧
          length (filter (λ p, p.2.1.1 <= h < p.2.1.2) time_of_day_patterns)
            = 1%nat.
Proof.
  intros H. apply hour_cases in H. vm_compute in H.
  repeat (apply elem_of_cons in H as [-> | H]);
    [..|by apply elem_of_nil in H];
    eexists; (split; [reflexivity|]); (split; [|reflexivity]);
    rewrite !elem_of_cons; tauto.
Qed.

(** The bounds of a returned reading, for a positive capacity. *)
Lemma generate_reading_bounds x ts rnd r :
  generate_reading x ts rnd = Some r →
  0 < Intersection.lanes_north_south x + Intersection.lanes_east_west x →
  (0 <= TrafficReading.occupancy_rate r)%Q ∧
  (TrafficReading.occupancy_rate r <= 1)%Q ∧
  (5 <= TrafficReading.average_speed r)%Q ∧
  (TrafficReading.average_speed r <= 35)%Q.
Proof.
  intros Hr Hlanes.
  destruct (generate_reading_Some _ _ _ _ Hr) as (Ht & _ & -> & -> & _).
  set (max_capacity := (_ + _) * 10 * 2).
  set (total := TrafficReading.vehicle_count r) in *.
  set (occupancy := Qmin 1.0 _).
  assert (Hcap : (0 < inject_Z max_capacity)%Q)
    by (rewrite <- (Zlt_Qlt 0); lia).
  assert (Hratio : (0 <= inject_Z total / inject_Z max_capacity)%Q).
  { apply Qle_shift_div_l; [done|]. rewrite Qmult_0_l.
    by rewrite <- (Zle_Qle 0). }
  assert (Hocc0 : (0 <= occupancy)%Q) by (apply Q.min_glb; [done|done]).
  assert (Hocc1 : (occupancy <= 1)%Q).
  { eapply Qle_trans; [apply Q.le_min_l|done]. }
  assert (Hspeed : (35 * (1 - occupancy * 0.7) <= 35)%Q) by lra.
  split; [|split; [|split]].
  - by apply (round_ge _ 3 0).
  - by apply (round_le _ 3 1).
  - apply (round_ge _ 2 5). apply Q.le_max_l.
  - apply (round_le _ 2 35). apply Q.max_lub; [done|exact Hspeed].
Qed.

End traffic_claims.

Section reading_claims.
Import TrafficSimulator.

(** C2.  Whenever [generate_reading] returns (the drawn weather is a key
    of the table and the lane counts do not sum to zero), the reading's
    vehicle_types holds exactly the keys car, truck, motorcycle and bus,
    and the four counts add up to vehicle_count. *)
Theorem C2_vehicle_types_sum_to_count (x : Intersection.t) (ts : datetime)
    (rnd : ReadingDraw) :
  weather_draw rnd ∈ weather_conditions.*1 →
  Intersection.lanes_north_south x + Intersection.lanes_east_west x ≠ 0 →
  ∃ r car truck motorcycle bus,
    generate_reading x ts rnd = Some r ∧
    TrafficReading.vehicle_types r
      = [ ("car", car); ("truck", truck);
          ("motorcycle", motorcycle); ("bus", bus) ]%string ∧
    car + truck + motorcycle + bus = TrafficReading.vehicle_count r.
Proof.
  intros Hw Hl.
  destruct (proj2 (generate_reading_is_Some x ts rnd) (conj Hw Hl)) as [r Hr].
  destruct (generate_reading_Some _ _ _ _ Hr) as (_ & _ & _ & _ & Hvt).
  exists r. do 4 eexists. split; [done|]. split; [exact Hvt|]. lia.
Qed.

(** C4.  For an intersection with at least two lanes on each axis and
    any outcome of the draws, [generate_reading] returns a reading whose
    occupancy_rate lies in [0, 1] and whose average_speed lies in
    [5, 35]. *)
Theorem C4_occupancy_and_speed_bounds (x : Intersection.t) (ts : datetime)
    (rnd : ReadingDraw) :
  2 <= Intersection.lanes_north_south x →
  2 <= Intersection.lanes_east_west x →
  ReadingDraw_ok rnd →
  ∃ r, generate_reading x ts rnd = Some r ∧
       (0 <= TrafficReading.occupancy_rate r)%Q ∧
       (TrafficReading.occupancy_rate r <= 1)%Q ∧
       (5 <= TrafficReading.average_speed r)%Q ∧
       (TrafficReading.average_speed r <= 35)%Q.
Proof.
  intros Hns Hew (_ & Hw & _).
  destruct (proj2 (generate_reading_is_Some x ts rnd)) as [r Hr];
    [split; [done|lia]|].
  exists r. split; [done|]. apply (generate_reading_bounds x ts rnd r Hr). lia.
Qed.

(** C8.  At every hour of the day 0..23, for every district and every
    outcome of the draws, the loop of [get_traffic_multiplier] returns
    from inside the one band that contains the hour (never the default
    after the loop), and the product of the time, district and weather
    factors is strictly positive. *)
Theorem C8_multiplier_positive (ts : datetime) (d : District)
    (rnd : ReadingDraw) :
  0 <= hour ts <= 23 →
  ReadingDraw_ok rnd →
  ∃ band weather_factor,
    length (filter (λ p, p.2.1.1 <= hour ts < p.2.1.2) time_of_day_patterns)
      = 1%nat ∧
    matched_band time_of_day_patterns (hour ts) (uniform 0.8 1.2 (time_u rnd))
      = Some (band * uniform 0.8 1.2 (time_u rnd))%Q ∧
    get_traffic_multiplier ts (time_u rnd)
      = (band * uniform 0.8 1.2 (time_u rnd))%Q ∧
    band ∈ [0.2; 1.5; 0.8; 1.6; 0.6]%Q ∧
    get_weather_impact (weather_draw rnd) = Some weather_factor ∧
    (0 < get_traffic_multiplier ts (time_u rnd)
         * district_multipliers d * weather_factor)%Q.
Proof.
  intros Hh (Hu & Hw & _).
  destruct (matched_band_Some (hour ts) (uniform 0.8 1.2 (time_u rnd)) Hh)
    as (band & Hb & Hband & Hone).
  destruct (get_weather_impact_Some _ Hw) as (wm & Hwm & Hpos).
  exists band, wm. unfold get_traffic_multiplier. rewrite Hb.
  repeat split; try done.
  assert (Hbpos : (0 < band)%Q).
  { rewrite !elem_of_cons, elem_of_nil in Hband.
    destruct Hband as [-> | [-> | [-> | [-> | [-> | []]]]]]; reflexivity. }
  assert (Hdpos : (0 < district_multipliers d)%Q) by (by destruct d).
  destruct (uniform_bounds 0.8 1.2 (time_u rnd)) as [Hlo _]; [done|done|].
  repeat apply Qmult_lt_0_compat; try done. lra.
Qed.

(** C9.  Whenever [generate_reading] returns on valid draws, each of
    the four vehicle-type counts is non-negative; the truck, motorcycle
    and bus counts together are at most a fifth of vehicle_count, which
    keeps the back-computed car count at or above zero. *)
Theorem C9_vehicle_type_counts_nonnegative (x : Intersection.t)
    (ts : datetime) (rnd : ReadingDraw) :
  ReadingDraw_ok rnd →
  Intersection.lanes_north_south x + Intersection.lanes_east_west x ≠ 0 →
  ∃ r car truck motorcycle bus,
    generate_reading x ts rnd = Some r ∧
    TrafficReading.vehicle_types r
      = [ ("car", car); ("truck", truck);
          ("motorcycle", motorcycle); ("bus", bus) ]%string ∧
    0 <= car ∧ 0 <= truck ∧ 0 <= motorcycle ∧ 0 <= bus ∧
    5 * (truck + motorcycle + bus) <= TrafficReading.vehicle_count r.
Proof.
  intros (_ & Hw & _ & _ & Hut & Hum & Hub & _) Hl.
  destruct (proj2 (generate_reading_is_Some x ts rnd) (conj Hw Hl)) as [r Hr].
  destruct (generate_reading_Some _ _ _ _ Hr) as (Ht & _ & _ & _ & Hvt).
  set (total := TrafficReading.vehicle_count r) in *.
  destruct (fraction_bounds total 0.05 0.12 (truck_u rnd)) as [Ht0 Ht1];
    [done|done|done|done|].
  destruct (fraction_bounds total 0.02 0.05 (motorcycle_u rnd)) as [Hm0 Hm1];
    [done|done|done|done|].
  destruct (fraction_bounds total 0.01 0.03 (bus_u rnd)) as [Hb0 Hb1];
    [done|done|done|done|].
  set (truck := int_of_float (_ * uniform 0.05 _ _)) in *.
  set (motorcycle := int_of_float (_ * uniform 0.02 _ _)) in *.
  set (bus := int_of_float (_ * uniform 0.01 _ _)) in *.
  assert (Hfifth : 5 * (truck + motorcycle + bus) <= total).
  { assert (HT : (0 <= inject_Z total)%Q) by (by rewrite <- (Zle_Qle 0)).
    rewrite Zle_Qle, inject_Z_mult, !inject_Z_plus.
    change (inject_Z 5) with 5%Q. lra. }
  exists r, (total - (0 + truck + motorcycle + bus)), truck, motorcycle, bus.
  repeat split; (done || lia).
Qed.

End reading_claims.

Lemma sample_draw_ok : TrafficSimulator.ReadingDraw_ok sample_draw.
Proof.
  unfold TrafficSimulator.ReadingDraw_ok, unit_draw. cbn.
  repeat split; try done. rewrite !elem_of_cons. tauto.
Qed.

Lemma C2_vehicle_types_sum_to_count_witness :
  ∃ r car truck motorcycle bus,
    TrafficSimulator.generate_reading sample_intersection sample_time sample_draw
      = Some r ∧
    TrafficReading.vehicle_types r
      = [ ("car", car); ("truck", truck);
          ("motorcycle", motorcycle); ("bus", bus) ]%string ∧
    car + truck + motorcycle + bus = TrafficReading.vehicle_count r.
Proof.
  apply (C2_vehicle_types_sum_to_count sample_intersection sample_time sample_draw).
  - cbn. rewrite !elem_of_cons. tauto.
  - cbn. lia.
Defined.

Lemma C4_occupancy_and_speed_bounds_witness :
  ∃ r, TrafficSimulator.generate_reading sample_intersection sample_time
         sample_draw = Some r ∧
       (0 <= TrafficReading.occupancy_rate r)%Q ∧
       (TrafficReading.occupancy_rate r <= 1)%Q ∧
       (5 <= TrafficReading.average_speed r)%Q ∧
       (TrafficReading.average_speed r <= 35)%Q.
Proof.
  apply (C4_occupancy_and_speed_bounds sample_intersection sample_time sample_draw).
  - cbn. lia.
  - cbn. lia.
  - exact sample_draw_ok.
Defined.

Lemma C8_multiplier_positive_witness :
  ∃ band weather_factor,
    length (filter (λ p, p.2.1.1 <= hour sample_time < p.2.1.2)
              TrafficSimulator.time_of_day_patterns) = 1%nat ∧
    TrafficSimulator.matched_band TrafficSimulator.time_of_day_patterns
      (hour sample_time) (uniform 0.8 1.2 (TrafficSimulator.time_u sample_draw))
      = Some (band * uniform 0.8 1.2 (TrafficSimulator.time_u sample_draw))%Q ∧
    TrafficSimulator.get_traffic_multiplier sample_time
      (TrafficSimulator.time_u sample_draw)
      = (band * uniform 0.8 1.2 (TrafficSimulator.time_u sample_draw))%Q ∧
    band ∈ [0.2; 1.5; 0.8; 1.6; 0.6]%Q ∧
    TrafficSimulator.get_weather_impact (TrafficSimulator.weather_draw sample_draw)
      = Some weather_factor ∧
    (0 < TrafficSimulator.get_traffic_multiplier sample_time
           (TrafficSimulator.time_u sample_draw)
         * TrafficSimulator.district_multipliers industrial * weather_factor)%Q.
Proof.
  apply (C8_multiplier_positive sample_time industrial sample_draw).
  - cbn. lia.
  - exact sample_draw_ok.
Defined.

Lemma C9_vehicle_type_counts_nonnegative_witness :
  ∃ r car truck motorcycle bus,
    TrafficSimulator.generate_reading sample_intersection sample_time sample_draw
      = Some r ∧
    TrafficReading.vehicle_types r
      = [ ("car", car); ("truck", truck);
          ("motorcycle", motorcycle); ("bus", bus) ]%string ∧
    0 <= car ∧ 0 <= truck ∧ 0 <= motorcycle ∧ 0 <= bus ∧
    5 * (truck + motorcycle + bus) <= TrafficReading.vehicle_count r.
Proof.
  apply (C9_vehicle_type_counts_nonnegative sample_intersection sample_time
           sample_draw).
  - exact sample_draw_ok.
  - cbn. lia.
Defined.

(** The sample reading, evaluated: 50 * (1.5 * 1.0) * 1.5 * 0.7
    truncates to 78, plus the jitter 2 gives 80 vehicles. *)
Example sample_reading_counts :
  (λ r, (TrafficReading.vehicle_count r, TrafficReading.vehicle_types r))
    <$> TrafficSimulator.generate_reading sample_intersection sample_time
          sample_draw
  = Some (80, [ ("car", 71); ("truck", 6); ("motorcycle", 2); ("bus", 1) ]%string).
Proof. vm_compute. reflexivity. Qed.

(** ** WeatherSimulator *)

Section weather.
Import WeatherSimulator.

(** The two branches of one call. *)
Lemma generate_weather_expiring (self : t) (rnd : Draw) :
  condition_duration self = 0 →
  current_condition (generate_weather self rnd).1 = condition_draw rnd ∧
  condition_duration (generate_weather self rnd).1 = duration_draw rnd - 1.
Proof.
  intros H. unfold generate_weather. cbn.
  by rewrite (bool_decide_eq_true_2 _ H).
Qed.

Lemma generate_weather_holding (self : t) (rnd : Draw) :
  condition_duration self ≠ 0 →
  current_condition (generate_weather self rnd).1 = current_condition self ∧
  condition_duration (generate_weather self rnd).1
    = condition_duration self - 1.
Proof.
  intros H. unfold generate_weather. cbn.
  by rewrite (bool_decide_eq_false_2 _ H).
Qed.

Lemma generate_weather_emits (self : t) (rnd : Draw) :
  WeatherReading.condition (generate_weather self rnd).2
    = current_condition (generate_weather self rnd).1.
Proof. reflexivity. Qed.

(** The counter never goes below zero once it is non-negative. *)
Lemma generate_weather_duration_nonneg (self : t) (rnd : Draw) :
  Draw_ok rnd → 0 <= condition_duration self →
  0 <= condition_duration (generate_weather self rnd).1.
Proof.
  intros [Hd _] H0. destruct (decide (condition_duration self = 0)) as [E|NE].
  - destruct (generate_weather_expiring self rnd E) as [_ ->]. lia.
  - destruct (generate_weather_holding self rnd NE) as [_ ->]. lia.
Qed.

Lemma run_cons (self : t) (rnd : Draw) (rnds : list Draw) :
  run self (rnd :: rnds)
  = Build_Call self rnd (generate_weather self rnd).1
               (generate_weather self rnd).2
    :: run (generate_weather self rnd).1 rnds.
Proof. cbn. by destruct (generate_weather self rnd). Qed.

Lemma length_run (self : t) (rnds : list Draw) :
  length (run self rnds) = length rnds.
Proof.
  revert self. induction rnds as [|rnd rnds IH]; intros self; [done|].
  rewrite run_cons. cbn. by rewrite IH.
Qed.

(** Every call in a run is one [generate_weather] on the recorded
    object with the recorded draws. *)
Lemma run_calls (self : t) (rnds : list Draw) :
  Forall (λ c, (after c, reading c) = generate_weather (before c) (draws c))
         (run self rnds).
Proof.
  revert self. induction rnds as [|rnd rnds IH]; intros self; [constructor|].
  rewrite run_cons. constructor; [|apply IH].
  cbn [before after reading draws]. by destruct (generate_weather self rnd).
Qed.

Lemma run_draws (self : t) (rnds : list Draw) :
  draws <$> run self rnds = rnds.
Proof.
  revert self. induction rnds as [|rnd rnds IH]; intros self; [done|].
  rewrite run_cons, fmap_cons. f_equal. apply IH.
Qed.

(** Consecutive calls are chained through the object. *)
Lemma run_chained (self : t) (rnds : list Draw) (k : nat) (c c' : Call) :
  run self rnds !! k = Some c → run self rnds !! S k = Some c' →
  before c' = after c.
Proof.
  revert self k. induction rnds as [|rnd rnds IH]; intros self k; [done|].
  rewrite run_cons. destruct k as [|k].
  - cbn. intros [= <-]. destruct rnds as [|rnd' rnds]; [done|].
    rewrite run_cons. cbn. by intros [= <-].
  - cbn. apply IH.
Qed.

Lemma run_first (self : t) (rnds : list Draw) (c : Call) :
  run self rnds !! 0%nat = Some c → before c = self.
Proof.
  destruct rnds as [|rnd rnds]; [done|]. rewrite run_cons. cbn.
  by intros [= <-].
Qed.

Lemma final_run (self : t) (rnds : list Draw) :
  final self rnds = default self (after <$> last (run self rnds)).
Proof.
  revert self. induction rnds as [|rnd rnds IH]; intros self; [done|].
  rewrite run_cons. unfold final in *. cbn [foldl]. rewrite IH, last_cons.
  by destruct (last (run _ rnds)).
Qed.

Lemma run_duration_nonneg (self : t) (rnds : list Draw) :
  Forall Draw_ok rnds → 0 <= condition_duration self →
  Forall (λ c, 0 <= condition_duration (before c) ∧
               0 <= condition_duration (after c)) (run self rnds).
Proof.
  revert self. induction rnds as [|rnd rnds IH]; intros self Hok H0;
    [constructor|].
  apply Forall_cons in Hok as [Hrnd Hok]. rewrite run_cons.
  pose proof (generate_weather_duration_nonneg self rnd Hrnd H0).
  constructor; [by cbn|]. by apply IH.
Qed.

End weather.

Section weather_claims.
Import WeatherSimulator.

Lemma call_facts (c : Call) :
  (after c, reading c) = generate_weather (before c) (draws c) →
  Draw_ok (draws c) →
  WeatherReading.condition (reading c) = current_condition (after c) ∧
  (WeatherReading.condition (reading c) ≠ current_condition (before c) →
   condition_duration (before c) = 0) ∧
  (condition_duration (before c) = 0 →
   WeatherReading.condition (reading c) = condition_draw (draws c) ∧
   4 <= duration_draw (draws c) <= 20 ∧
   condition_duration (after c) = duration_draw (draws c) - 1) ∧
  (condition_duration (before c) ≠ 0 →
   condition_duration (after c) = condition_duration (before c) - 1).
Proof.
  intros Hc [Hd _].
  assert (Ha : after c = (generate_weather (before c) (draws c)).1)
    by (by rewrite <- Hc).
  assert (Hr : reading c = (generate_weather (before c) (draws c)).2)
    by (by rewrite <- Hc).
  rewrite Hr, Ha, generate_weather_emits. split; [done|].
  destruct (decide (condition_duration (before c) = 0)) as [E|NE].
  - destruct (generate_weather_expiring _ (draws c) E) as [-> ->]. done.
  - destruct (generate_weather_holding _ (draws c) NE) as [-> ->]. done.
Qed.

Lemma run_call_facts (self : t) (rnds : list Draw) (k : nat) (c : Call) :
  Forall Draw_ok rnds → run self rnds !! k = Some c →
  (after c, reading c) = generate_weather (before c) (draws c) ∧
  Draw_ok (draws c).
Proof.
  intros Hok Hk. split.
  - by apply (Forall_lookup_1 _ _ _ _ (run_calls self rnds) Hk).
  - rewrite <- (run_draws self rnds) in Hok.
    apply (Forall_lookup_1 _ _ k (draws c) Hok).
    by rewrite list_lookup_fmap, Hk.
Qed.

(** C5.  In every sequence of [generate_weather] calls on one object,
    with draws that respect [randint(4, 20)]: the condition emitted by a
    call differs from the one emitted by the call before it only if the
    counter was zero when the call started; a call that starts at zero
    emits the drawn condition and draws its duration from [4, 20]; and
    every call leaves the counter one below the value it works on (the
    drawn duration after a redraw, the previous value otherwise). *)
Theorem C5_condition_changes_only_at_zero (self : t) (rnds : list Draw) :
  Forall Draw_ok rnds →
  (∀ k c c',
     run self rnds !! k = Some c → run self rnds !! S k = Some c' →
     WeatherReading.condition (reading c')
       ≠ WeatherReading.condition (reading c) →
     condition_duration (before c') = 0) ∧
  (∀ k c,
     run self rnds !! k = Some c →
     (WeatherReading.condition (reading c) ≠ current_condition (before c) →
      condition_duration (before c) = 0) ∧
     (condition_duration (before c) = 0 →
      WeatherReading.condition (reading c) = condition_draw (draws c) ∧
      4 <= duration_draw (draws c) <= 20 ∧
      condition_duration (after c) = duration_draw (draws c) - 1) ∧
     (condition_duration (before c) ≠ 0 →
      condition_duration (after c) = condition_duration (before c) - 1)).
Proof.
  intros Hok. split.
  - intros k c c' Hk Hk' Hne.
    destruct (run_call_facts self rnds k c Hok Hk) as [Hc Hd].
    destruct (run_call_facts self rnds (S k) c' Hok Hk') as [Hc' Hd'].
    destruct (call_facts c Hc Hd) as (He & _).
    destruct (call_facts c' Hc' Hd') as (_ & Hchg & _).
    apply Hchg. rewrite (run_chained self rnds k c c' Hk Hk'). by rewrite <- He.
  - intros k c Hk.
    destruct (run_call_facts self rnds k c Hok Hk) as [Hc Hd].
    by destruct (call_facts c Hc Hd) as (_ & ? & ? & ?).
Qed.

(** C10.  Starting from the initial object (condition clear, counter
    0), after any sequence of [generate_weather] calls the counter is
    non-negative; a call that starts at zero leaves it in [3, 19] and
    any other call leaves it one below its previous value. *)
Theorem C10_duration_never_negative (center : Q * Q) (rnds : list Draw) :
  Forall Draw_ok rnds →
  0 <= condition_duration (final (init center) rnds) ∧
  (∀ k c,
     run (init center) rnds !! k = Some c →
     0 <= condition_duration (before c) ∧
     0 <= condition_duration (after c) ∧
     (condition_duration (before c) = 0 →
      3 <= condition_duration (after c) <= 19) ∧
     (condition_duration (before c) ≠ 0 →
      condition_duration (after c) = condition_duration (before c) - 1)).
Proof.
  intros Hok.
  pose proof (run_duration_nonneg (init center) rnds Hok) as Hnn.
  specialize (Hnn ltac:(done)). split.
  - rewrite final_run. destruct (last _) as [c|] eqn:Hlast; [|done].
    apply last_Some_elem_of in Hlast.
    rewrite Forall_forall in Hnn. by destruct (Hnn c Hlast).
  - intros k c Hk.
    destruct (Forall_lookup_1 _ _ _ _ Hnn Hk) as [Hb Ha].
    destruct (run_call_facts _ rnds k c Hok Hk) as [Hc Hd].
    destruct (call_facts c Hc Hd) as (_ & _ & Hz & Hnz).
    repeat split; try done.
    + destruct (Hz ltac:(done)) as (_ & ? & ?). lia.
    + destruct (Hz ltac:(done)) as (_ & ? & ?). lia.
Qed.

End weather_claims.

Lemma sample_weather_draws_ok :
  Forall WeatherSimulator.Draw_ok sample_weather_draws.
Proof.
  repeat constructor; cbn; (lia || done).
Qed.

Lemma C5_condition_changes_only_at_zero_witness :
  Forall WeatherSimulator.Draw_ok sample_weather_draws ∧
  (∀ k c c',
     WeatherSimulator.run (WeatherSimulator.init (40.7128, -74.006)%Q)
       sample_weather_draws !! k = Some c →
     WeatherSimulator.run (WeatherSimulator.init (40.7128, -74.006)%Q)
       sample_weather_draws !! S k = Some c' →
     WeatherReading.condition (WeatherSimulator.reading c')
       ≠ WeatherReading.condition (WeatherSimulator.reading c) →
     WeatherSimulator.condition_duration (WeatherSimulator.before c') = 0).
Proof.
  split; [exact sample_weather_draws_ok|].
  apply (C5_condition_changes_only_at_zero
           (WeatherSimulator.init (40.7128, -74.006)%Q) sample_weather_draws).
  exact sample_weather_draws_ok.
Defined.

Lemma C10_duration_never_negative_witness :
  Forall WeatherSimulator.Draw_ok sample_weather_draws ∧
  0 <= WeatherSimulator.condition_duration
         (WeatherSimulator.final (WeatherSimulator.init (40.7128, -74.006)%Q)
            sample_weather_draws).
Proof.
  split; [exact sample_weather_draws_ok|].
  apply (C10_duration_never_negative (40.7128, -74.006)%Q sample_weather_draws).
  exact sample_weather_draws_ok.
Defined.

(** The sample run: a redraw at the first call, then four holding calls;
    the later draws are not consumed. *)
Example sample_weather_run :
  (λ c, (WeatherReading.condition (WeatherSimulator.reading c),
         WeatherSimulator.condition_duration (WeatherSimulator.after c)))
    <$> WeatherSimulator.run (WeatherSimulator.init (40.7128, -74.006)%Q)
          sample_weather_draws
  = [ (rain, 3); (rain, 2); (rain, 1); (rain, 0) ; (cloudy, 11) ].
Proof. vm_compute. reflexivity. Qed.

(** ** EventHubPublisher *)

Section publisher.
Import EventHubPublisher.
Context {A : Type} (event_size : A → nat) (max_size : nat).

Abbreviation batch_size := (batch_size event_size).
Abbreviation batch_add := (batch_add event_size max_size).
Abbreviation send_loop := (send_loop event_size max_size).
Abbreviation fits := (λ r, (event_size r <= max_size)%nat).

Lemma batch_size_snoc (batch : list A) (e : A) :
  batch_size (batch ++ [e]) = (batch_size batch + event_size e)%nat.
Proof.
  unfold EventHubPublisher.batch_size. rewrite sum_list_with_app. cbn. lia.
Qed.

Lemma batch_add_Some (batch batch' : list A) (e : A) :
  batch_add batch e = Some batch' →
  batch' = batch ++ [e] ∧ (batch_size batch' <= max_size)%nat.
Proof.
  unfold EventHubPublisher.batch_add.
  destruct (Nat.leb_spec (batch_size batch + event_size e) max_size); [|done].
  intros [= <-]. by rewrite batch_size_snoc.
Qed.

Lemma batch_add_None (batch : list A) (e : A) :
  batch_add batch e = None →
  (max_size < batch_size batch + event_size e)%nat.
Proof.
  unfold EventHubPublisher.batch_add.
  by destruct (Nat.leb_spec (batch_size batch + event_size e) max_size).
Qed.

Lemma batch_add_empty (e : A) :
  (event_size e <= max_size)%nat → batch_add [] e = Some [e].
Proof.
  intros H. unfold EventHubPublisher.batch_add. cbn.
  by destruct (Nat.leb_spec (event_size e) max_size); [|lia].
Qed.

Lemma batch_add_oversized (batch : list A) (e : A) :
  (max_size < event_size e)%nat → batch_add batch e = None.
Proof.
  intros H. unfold EventHubPublisher.batch_add.
  by destruct (Nat.leb_spec (batch_size batch + event_size e) max_size); [lia|].
Qed.

(** The loop, from any state: it returns, and what it hands over after
    [sent] splits the pending batch followed by the readings. *)
Lemma send_loop_spec (readings batch : list A) (sent : list (list A)) :
  Forall fits readings →
  (batch_size batch <= max_size)%nat →
  ∃ bs,
    send_loop readings batch sent = Returned (sent ++ bs) ∧
    concat bs = batch ++ readings ∧
    Forall (λ b, b ≠ [] ∧ (batch_size b <= max_size)%nat) bs ∧
    greedy event_size max_size bs ∧
    (batch ++ readings ≠ [] → ∃ more rest, bs = (batch ++ more) :: rest).
Proof.
  revert batch sent.
  induction readings as [|e readings IH]; intros batch sent Hfit Hbatch.
  - cbn [EventHubPublisher.send_loop]. destruct batch as [|b batch].
    + exists []. cbn. by rewrite !app_nil_r.
    + exists [b :: batch]. cbn [length Nat.ltb Nat.leb]. rewrite !app_nil_r.
      split; [done|]. split; [by cbn; rewrite app_nil_r|].
      split; [by repeat constructor|]. split; [done|].
      intros _. exists [], []. by rewrite app_nil_r.
  - apply Forall_cons in Hfit as [He Hfit]. cbn [EventHubPublisher.send_loop].
    destruct (batch_add batch e) as [batch'|] eqn:Hadd.
    + apply batch_add_Some in Hadd as [-> Hsize].
      destruct (IH (batch ++ [e]) sent Hfit Hsize)
        as (bs & Hrun & Hcat & Hall & Hgreedy & Hhead).
      exists bs. rewrite <- app_assoc in Hcat.
      split; [done|]. split; [done|]. split; [done|]. split; [done|].
      intros _. destruct Hhead as (more & rest & ->).
      { by destruct batch. }
      exists (e :: more), rest. by rewrite <- app_assoc.
    + apply batch_add_None in Hadd.
      assert (Hne : batch ≠ []).
      { intros ->. cbn in Hadd. lia. }
      rewrite (batch_add_empty e He).
      destruct (IH [e] (sent ++ [batch]) Hfit) as
        (bs & Hrun & Hcat & Hall & Hgreedy & Hhead).
      { unfold EventHubPublisher.batch_size. cbn. lia. }
      destruct Hhead as (more & rest & ->); [done|].
      exists (batch :: ([e] ++ more) :: rest).
      rewrite <- app_assoc in Hrun.
      split; [done|]. split; [|split; [|split]].
      * cbn in Hcat |- *. by f_equal.
      * by constructor.
      * split; [exact Hadd|exact Hgreedy].
      * intros _. exists [], (([e] ++ more) :: rest). by rewrite app_nil_r.
Qed.

(** The loop on readings the first oversized of which is [e]: the
    error escapes at [e], after the readings before it have been
    handed over. *)
Lemma send_loop_raises (pre post batch : list A) (e : A)
    (sent : list (list A)) :
  Forall fits pre → (max_size < event_size e)%nat →
  (batch_size batch <= max_size)%nat →
  ∃ bs, send_loop (pre ++ e :: post) batch sent = Raised (sent ++ bs) ∧
        concat bs = batch ++ pre.
Proof.
  intros Hpre He. revert batch sent.
  induction pre as [|r pre IH]; intros batch sent Hbatch.
  - cbn [app EventHubPublisher.send_loop].
    rewrite !(batch_add_oversized _ e He).
    exists [batch]. cbn. by rewrite !app_nil_r.
  - apply Forall_cons in Hpre as [Hr Hpre].
    cbn [app EventHubPublisher.send_loop].
    destruct (batch_add batch r) as [batch'|] eqn:Hadd.
    + apply batch_add_Some in Hadd as [-> Hsize].
      destruct (IH Hpre (batch ++ [r]) sent Hsize) as (bs & Hrun & Hcat).
      exists bs. by rewrite <- app_assoc in Hcat.
    + rewrite (batch_add_empty r Hr).
      destruct (IH Hpre [r] (sent ++ [batch])) as (bs & Hrun & Hcat).
      { unfold EventHubPublisher.batch_size. cbn. lia. }
      exists (batch :: bs). rewrite <- app_assoc in Hrun.
      split; [done|]. cbn [concat]. by rewrite Hcat.
Qed.

(** [send_batch] returns exactly when every reading fits in a batch on
    its own. *)
Lemma send_batch_returns_iff (readings : list A) :
  (∃ bs, send_batch event_size max_size readings = Returned bs)
  ↔ Forall fits readings.
Proof.
  split.
  - intros [bs Hbs].
    destruct (decide (Forall fits readings)) as [|Hno]; [done|exfalso].
    apply not_Forall_Exists in Hno; [|intros r; apply _].
    assert (Hsplit : ∃ pre e post,
              readings = pre ++ e :: post ∧ Forall fits pre
              ∧ (max_size < event_size e)%nat).
    { clear Hbs. induction readings as [|r readings IH];
        [by apply Exists_nil in Hno|].
      destruct (decide (fits r)) as [Hr|Hr].
      - apply Exists_cons in Hno as [Hno|Hno]; [done|].
        destruct (IH Hno) as (pre & e & post & -> & Hpre & He).
        exists (r :: pre), e, post. split; [done|]. by split; [constructor|].
      - exists [], r, readings. split; [done|]. split; [constructor|lia]. }
    destruct Hsplit as (pre & e & post & -> & Hpre & He).
    destruct (send_loop_raises pre post [] e [] Hpre He) as (bs' & Hr & _).
    { cbn. lia. }
    unfold send_batch in Hbs. congruence.
  - intros Hfit.
    destruct (send_loop_spec readings [] [] Hfit) as (bs & Hrun & _).
    { cbn. lia. }
    by exists bs.
Qed.

Lemma batch_size_uniform (batch : list A) (s : nat) :
  Forall (λ r, event_size r = s) batch →
  batch_size batch = (length batch * s)%nat.
Proof.
  induction batch as [|e batch IH]; intros H; [done|].
  apply Forall_cons in H as [He H].
  unfold EventHubPublisher.batch_size in *. cbn. rewrite (IH H), He. lia.
Qed.

(** With events of one size and room for exactly three of them, adding
    succeeds exactly on batches of fewer than three events. *)
Lemma batch_add_uniform (batch : list A) (e : A) (s : nat) :
  (0 < s)%nat → (3 * s <= max_size < 4 * s)%nat →
  Forall (λ r, event_size r = s) batch → event_size e = s →
  batch_add batch e
  = if (length batch <? 3)%nat then Some (batch ++ [e]) else None.
Proof.
  intros Hs Hmax Hb He. unfold EventHubPublisher.batch_add.
  rewrite (batch_size_uniform batch s Hb), He.
  destruct (Nat.ltb_spec (length batch) 3),
    (Nat.leb_spec (length batch * s + s) max_size); (done || nia).
Qed.

End publisher.

Section publisher_claims.
Import EventHubPublisher.
Context {A : Type} (event_size : A → nat) (max_size : nat).

(** Ten events of one size through a channel with room for exactly
    three: four batches, of 3, 3, 3 and 1 events. *)
Lemma send_batch_ten_by_three (readings : list A) (s : nat) :
  (0 < s)%nat → (3 * s <= max_size < 4 * s)%nat →
  length readings = 10%nat →
  Forall (λ r, event_size r = s) readings →
  ∃ bs, send_batch event_size max_size readings = Returned bs ∧
        length <$> bs = [3; 3; 3; 1]%nat ∧
        concat bs = readings.
Proof.
  intros Hs Hmax Hlen Hsize.
  do 10 (destruct readings as [|? readings]; [discriminate Hlen|]).
  destruct readings; [|discriminate Hlen].
  repeat match goal with
         | H : Forall _ (_ :: _) |- _ => apply Forall_cons in H as [? H]
         end.
  unfold send_batch. eexists.
  repeat (cbn [send_loop];
          rewrite (batch_add_uniform event_size max_size _ _ s Hs Hmax)
            by (repeat constructor; assumption);
          cbn [length Nat.ltb Nat.leb app]).
  cbn [send_loop length Nat.ltb Nat.leb app].
  split; [reflexivity|]. split; reflexivity.
Qed.

(** C6.  When every reading fits in a batch on its own, [send_batch]
    returns, and the batches it has sent, in order, concatenate to the
    readings (nothing dropped, duplicated or reordered); every batch is
    non-empty and within the capacity, and a batch is closed only when
    the next reading would not fit.  In particular ten readings of one
    size, with room for exactly three, go out as batches of 3, 3, 3 and
    1. *)
Theorem C6_batches_partition_readings (readings : list A) :
  Forall (λ r, (event_size r <= max_size)%nat) readings →
  (∃ bs, send_batch event_size max_size readings = Returned bs ∧
         concat bs = readings ∧
         Forall (λ b, b ≠ [] ∧ (batch_size event_size b <= max_size)%nat) bs ∧
         greedy event_size max_size bs) ∧
  (∀ s, (0 < s)%nat → (3 * s <= max_size < 4 * s)%nat →
        length readings = 10%nat →
        Forall (λ r, event_size r = s) readings →
        ∃ bs, send_batch event_size max_size readings = Returned bs ∧
              length <$> bs = [3; 3; 3; 1]%nat ∧
              concat bs = readings).
Proof.
  intros Hfit. split.
  - destruct (send_loop_spec event_size max_size readings [] [] Hfit)
      as (bs & Hrun & Hcat & Hall & Hgreedy & _); [cbn; lia|].
    by exists bs.
  - intros s. apply send_batch_ten_by_three.
Qed.

End publisher_claims.

Lemma C6_batches_partition_readings_witness :
  (∃ bs, EventHubPublisher.send_batch (λ _ : Z, 1%nat) 3 (seqZ 1 10)
           = EventHubPublisher.Returned bs ∧
         concat bs = seqZ 1 10 ∧
         Forall (λ b, b ≠ [] ∧
                      (EventHubPublisher.batch_size (λ _ : Z, 1%nat) b <= 3)%nat)
                bs ∧
         EventHubPublisher.greedy (λ _ : Z, 1%nat) 3 bs) ∧
  (∃ bs, EventHubPublisher.send_batch (λ _ : Z, 1%nat) 3 (seqZ 1 10)
           = EventHubPublisher.Returned bs ∧
         length <$> bs = [3; 3; 3; 1]%nat ∧
         concat bs = seqZ 1 10).
Proof.
  assert (Hfit : Forall (λ r : Z, ((λ _ : Z, 1) r <= 3)%nat) (seqZ 1 10))
    by (apply Forall_forall; intros; lia).
  pose proof (C6_batches_partition_readings (λ _ : Z, 1%nat) 3 (seqZ 1 10) Hfit)
    as [Hgen Hten].
  split; [exact Hgen|].
  apply (Hten 1%nat); [lia | lia | reflexivity |].
  apply Forall_forall. intros; reflexivity.
Defined.

(** The scenario of the specification, evaluated. *)
Example send_batch_ten_readings :
  EventHubPublisher.send_batch (λ _ : Z, 1%nat) 3 (seqZ 1 10)
  = EventHubPublisher.Returned [[1; 2; 3]; [4; 5; 6]; [7; 8; 9]; [10]].
Proof. vm_compute. reflexivity. Qed.

(** An event larger than the capacity: the pending batch goes out, then
    the error escapes and the remaining readings are never sent. *)
Example send_batch_oversized_event :
  EventHubPublisher.send_batch (λ r : nat, r) 3 [1; 2; 5; 1]%nat
  = EventHubPublisher.Raised [[1; 2]]%nat.
Proof. vm_compute. reflexivity. Qed.

(** ** TrafficDataValidator *)

Section validator.
Import TrafficDataValidator.

Lemma check_field_violation (message : gmap string JValue)
    (errors : list string) (field : string * PyType) :
  check_field message errors field
  = errors ++ option_list (describe message field <$> violation message field).
Proof.
  destruct field as [field_name field_type].
  unfold check_field, violation, describe. cbn [fst snd].
  destruct (message !! field_name) as [v|]; [|done].
  destruct v; cbn; try done;
    destruct (isinstance _ field_type); cbn; by rewrite ?app_nil_r.
Qed.

Lemma foldl_check_field (message : gmap string JValue)
    (fields : list (string * PyType)) (errors : list string) :
  foldl (check_field message) errors fields
  = errors ++ omap (λ f, describe message f <$> violation message f) fields.
Proof.
  revert errors. induction fields as [|f fields IH]; intros errors.
  - by rewrite app_nil_r.
  - cbn [foldl]. rewrite IH, check_field_violation, <- app_assoc. f_equal.
    cbn. by destruct (violation message f).
Qed.

(** The loop visits every field and records one text per violation,
    in field order. *)
Lemma _validate_schema_omap (message : gmap string JValue) :
  _validate_schema message
  = omap (λ f, describe message f <$> violation message f) REQUIRED_FIELDS.
Proof. unfold _validate_schema. by rewrite foldl_check_field. Qed.

Lemma length_omap_filter {X Y} (f : X → option Y) (l : list X) :
  length (omap f l) = length (filter (λ x, is_Some (f x)) l).
Proof.
  induction l as [|x l IH]; [done|]. rewrite filter_cons.
  cbn [omap list_omap]. destruct (f x) as [y|].
  - rewrite decide_True by (by eexists). cbn. by rewrite <- IH.
  - by rewrite decide_False by (by intros [? ?]).
Qed.

Lemma omap_nil_iff {X Y} (f : X → option Y) (l : list X) :
  omap f l = [] ↔ Forall (λ x, f x = None) l.
Proof.
  induction l as [|x l IH]; [by split|]. cbn. rewrite Forall_cons.
  destruct (f x); [split; [done|by intros [? _]]|]. rewrite IH. tauto.
Qed.

(** A field conforms when it is present, not null and of the expected
    type. *)
Lemma violation_None (message : gmap string JValue) (field : string * PyType) :
  violation message field = None ↔
  ∃ v, message !! field.1 = Some v ∧ v ≠ JNull ∧ isinstance v field.2 = true.
Proof.
  unfold violation. destruct (message !! field.1) as [v|]; split.
  - intros H. exists v. destruct v; try done;
      (destruct (isinstance _ _); [done|discriminate H]).
  - intros (v' & [= <-] & Hnull & Hty). destruct v; try done; by rewrite Hty.
  - done.
  - by intros (v & [=] & _).
Qed.

End validator.

Section validator_claims.
Import TrafficDataValidator.

(** C7.  The schema phase looks at all 13 required fields, in order,
    and records one text per field in violation (missing, null or of
    the wrong type), without stopping at the first: the error list has
    one entry per violating field, it is empty exactly when every
    required field is present, not null and of its expected type, and a
    message without sensor_id gets the error for that field. *)
Theorem C7_schema_phase_reports_every_violation
    (message : gmap string JValue) :
  length REQUIRED_FIELDS = 13%nat ∧
  _validate_schema message
    = omap (λ f, describe message f <$> violation message f) REQUIRED_FIELDS ∧
  length (_validate_schema message)
    = length (filter (λ f, is_Some (violation message f)) REQUIRED_FIELDS) ∧
  (_validate_schema message = [] ↔
   ∀ field_name field_type,
     (field_name, field_type) ∈ REQUIRED_FIELDS →
     ∃ v, message !! field_name = Some v ∧ v ≠ JNull ∧
          isinstance v field_type = true) ∧
  (message !! "sensor_id"%string = None →
   "Missing field: sensor_id"%string ∈ _validate_schema message).
Proof.
  split; [reflexivity|]. split; [apply _validate_schema_omap|].
  rewrite _validate_schema_omap. split.
  { rewrite length_omap_filter. f_equal. apply list_filter_iff.
    intros f. apply fmap_is_Some. }
  split.
  - rewrite omap_nil_iff, Forall_forall. split.
    + intros H field_name field_type Hin.
      specialize (H _ Hin). apply fmap_None in H.
      by apply violation_None in H.
    + intros H [field_name field_type] Hin. apply fmap_None.
      apply violation_None. by apply H.
  - intros Hmiss. apply list_elem_of_omap.
    exists ("sensor_id"%string, str_t). split; [by left|].
    unfold violation. cbn [fst]. by rewrite Hmiss.
Qed.

End validator_claims.

Lemma C7_schema_phase_reports_every_violation_witness :
  "Missing field: sensor_id"%string
    ∈ TrafficDataValidator._validate_schema (delete "sensor_id"%string sample_message).
Proof.
  apply (C7_schema_phase_reports_every_violation
           (delete "sensor_id"%string sample_message)).
  apply lookup_delete_eq.
Defined.

Example sample_message_conforms :
  TrafficDataValidator._validate_schema sample_message = [].
Proof. vm_compute. reflexivity. Qed.

(** Every field is inspected: the empty message gets thirteen errors. *)
Example empty_message_errors :
  length (TrafficDataValidator._validate_schema ∅) = 13%nat.
Proof. reflexivity. Qed.

(** Three violations of three kinds in one message, reported in field
    order: a JSON integer is not a [float], and a JSON boolean passes for
    [int]. *)
Example mixed_message_errors :
  TrafficDataValidator._validate_schema
    (<["queue_length" := JBool true]>
       (<["latitude" := JInt 40]>
          (<["timestamp" := JNull]>
             (delete "sensor_id" sample_message))))%string
  = [ "Missing field: sensor_id";
      "Null field: timestamp";
      "Invalid type for field latitude: <class 'int'> (expected <class 'float'>)"
    ]%string.
Proof. vm_compute. reflexivity. Qed.

(** ** The simulator end to end *)

Section end_to_end.
Import CityGrid TrafficSimulator.

(** The label in terms of the real distance [sqrt(i^2 + j^2)] of the cell
    from cell (0, 0). *)
Lemma district_of_real (i j : Z) :
  let distance := sqrt (IZR (i ^ 2 + j ^ 2)) in
  ((distance < 3)%R → district_of i j = downtown) ∧
  ((3 <= distance < 5)%R → district_of i j = residential) ∧
  ((5 <= distance < 7)%R → district_of i j = industrial) ∧
  ((7 <= distance)%R → district_of i j = suburban).
Proof.
  assert (H0 : 0 <= i ^ 2 + j ^ 2) by nia.
  pose proof (sqrt_lt_spec _ 3 H0 ltac:(lia)) as H3.
  pose proof (sqrt_lt_spec _ 5 H0 ltac:(lia)) as H5.
  pose proof (sqrt_lt_spec _ 7 H0 ltac:(lia)) as H7.
  unfold district_of. cbv zeta.
  destruct (sqrt_lt _ 3) eqn:E3; [|destruct (sqrt_lt _ 5) eqn:E5;
    [|destruct (sqrt_lt _ 7) eqn:E7]].
  - apply proj1 in H3. specialize (H3 eq_refl).
    repeat split; intros; (done || (exfalso; Lra.lra)).
  - apply proj1 in H5. specialize (H5 eq_refl).
    assert (¬ (sqrt (IZR (i ^ 2 + j ^ 2)) < 3)%R)
      by (intros H; apply H3 in H; discriminate H).
    repeat split; intros; (done || (exfalso; Lra.lra)).
  - apply proj1 in H7. specialize (H7 eq_refl).
    assert (¬ (sqrt (IZR (i ^ 2 + j ^ 2)) < 5)%R)
      by (intros H; apply H5 in H; discriminate H).
    repeat split; intros; (done || (exfalso; Lra.lra)).
  - assert (¬ (sqrt (IZR (i ^ 2 + j ^ 2)) < 7)%R)
      by (intros H; apply H7 in H; discriminate H).
    repeat split; intros; (done || (exfalso; Lra.lra)).
Qed.

(** Every generated intersection has between two and four lanes on each
    axis. *)
Lemma _generate_intersections_lanes center N rnd l :
  (∀ i j, CellDraw_ok (rnd i j)) →
  _generate_intersections center N rnd = Some l →
  Forall (λ x, Intersection.lanes_north_south x ∈ [2; 3; 4] ∧
               Intersection.lanes_east_west x ∈ [2; 3; 4]) l.
Proof.
  intros Hok H. apply _generate_intersections_Some in H.
  induction H as [|[i j] x cs l Hx _ IH]; constructor; [|done].
  apply make_intersection_Some in Hx as (_ & _ & -> & ->).
  by destruct (Hok i j) as (? & ? & _).
Qed.

(** One tick of [main]: a reading is produced for every intersection of
    the grid, and each one is within the bounds of the specification and
    internally consistent. *)
Lemma grid_readings_consistent center N rnd l ts (draw : Z → Z → ReadingDraw) :
  (∀ i j, CellDraw_ok (rnd i j)) →
  (∀ i j, ReadingDraw_ok (draw i j)) →
  _generate_intersections center N rnd = Some l →
  ∀ k x, l !! k = Some x →
    ∃ r, generate_reading x ts (draw (Z.of_nat k / N) (Z.of_nat k `mod` N))
           = Some r ∧
         TrafficReading.intersection_id r = Intersection.intersection_id x ∧
         (0 <= TrafficReading.occupancy_rate r)%Q ∧
         (TrafficReading.occupancy_rate r <= 1)%Q ∧
         (5 <= TrafficReading.average_speed r)%Q ∧
         (TrafficReading.average_speed r <= 35)%Q ∧
         0 <= TrafficReading.vehicle_count r.
Proof.
  intros Hcell Hdraw Hl k x Hk.
  pose proof (_generate_intersections_lanes _ _ _ _ Hcell Hl) as Hlanes.
  destruct (Forall_lookup_1 _ _ _ _ Hlanes Hk) as [Hns Hew].
  assert (2 <= Intersection.lanes_north_south x)
    by (rewrite !elem_of_cons, elem_of_nil in Hns; lia).
  assert (2 <= Intersection.lanes_east_west x)
    by (rewrite !elem_of_cons, elem_of_nil in Hew; lia).
  set (d := draw _ _).
  destruct (proj2 (generate_reading_is_Some x ts d)) as [r Hr].
  { split; [by destruct (Hdraw (Z.of_nat k / N) (Z.of_nat k `mod` N))
               as (_ & ? & _)|lia]. }
  exists r. split; [done|].
  destruct (generate_reading_Some _ _ _ _ Hr) as (Ht & _).
  split.
  { unfold generate_reading in Hr.
    destruct (get_weather_impact _); [|done]. cbn [mbind option_bind] in Hr.
    destruct (truediv _ _); [|done]. by injection Hr as <-. }
  destruct (generate_reading_bounds x ts d r Hr) as (? & ? & ? & ?); [lia|].
  by repeat split.
Qed.

End end_to_end.

(** The end-to-end scenario of the specification: a grid of size 2 has
    four intersections, all of them downtown. *)
Example grid_of_size_two :
  (λ l : list Intersection.t,
     (λ x, (Intersection.intersection_id x, Intersection.district x)) <$> l)
    <$> CityGrid._generate_intersections (0%Q, 0%Q) 2
          (λ _ _, CityGrid.Build_CellDraw 2 3 0.5%Q)
  = Some [ ("INT-0000", downtown); ("INT-0001", downtown);
           ("INT-0100", downtown); ("INT-0101", downtown) ]%string.
Proof. vm_compute. reflexivity. Qed.

(** ** Strings *)

Lemma append_cons (c : ascii) (a b : string) :
  (String c a +:+ b)%string = String c (a +:+ b).
Proof. reflexivity. Qed.

Lemma append_nil_l (s : string) : (EmptyString +:+ s)%string = s.
Proof. reflexivity. Qed.

Lemma append_nil_r (s : string) : (s +:+ EmptyString)%string = s.
Proof.
  induction s as [|c s IH]; [done|]. by rewrite append_cons, IH.
Qed.

Lemma append_assoc (a b c : string) :
  ((a +:+ b) +:+ c)%string = (a +:+ (b +:+ c))%string.
Proof.
  induction a as [|x a IH]; [done|]. by rewrite !append_cons, IH.
Qed.

Lemma length_append' (a b : string) :
  String.length (a +:+ b) = (String.length a + String.length b)%nat.
Proof.
  induction a as [|x a IH]; [done|]. rewrite append_cons. cbn. by rewrite IH.
Qed.

Lemma str_split_go_concat (sep : ascii) (piece s : string) :
  String.concat (String sep EmptyString) (str_split_go sep piece s)
  = (piece +:+ s)%string.
Proof.
  revert piece. induction s as [|c s IH]; intros piece.
  - cbn [str_split_go String.concat]. by rewrite append_nil_r.
  - cbn [str_split_go]. destruct (Ascii.eqb_spec c sep) as [->|Hne].
    + specialize (IH EmptyString).
      destruct (str_split_go sep EmptyString s) as [|x l] eqn:E.
      { by destruct s; cbn in E; repeat case_match. }
      cbn [String.concat]. cbn [String.concat] in IH. rewrite IH.
      by rewrite append_nil_l.
    + rewrite IH, append_assoc. done.
Qed.

(** Splitting at the dots and joining with dots gives the path back. *)
Lemma str_split_concat (sep : ascii) (s : string) :
  String.concat (String sep EmptyString) (str_split sep s) = s.
Proof. apply str_split_go_concat. Qed.

Lemma str_split_go_app (sep : ascii) (piece p q : string) :
  str_split_go sep piece (p +:+ String sep q)
  = str_split_go sep piece p ++ str_split sep q.
Proof.
  revert piece. induction p as [|c p IH]; intros piece.
  - rewrite append_nil_l. cbn. by rewrite Ascii.eqb_refl.
  - rewrite append_cons. cbn. destruct (Ascii.eqb c sep); [by rewrite IH|apply IH].
Qed.

Lemma str_split_nonempty (sep : ascii) (s : string) : str_split sep s ≠ [].
Proof.
  unfold str_split. generalize EmptyString. induction s as [|c s IH]; intros piece.
  - done.
  - cbn. destruct (Ascii.eqb c sep); [done|apply IH].
Qed.

Lemma prefix_split (p s : string) :
  String.prefix p s = true → ∃ rest, s = (p +:+ rest)%string.
Proof.
  revert s. induction p as [|c p IH]; intros s H; [by exists s|].
  destruct s as [|c' s]; [done|]. cbn in H.
  destruct (Ascii.ascii_dec c c') as [->|]; [|done].
  destruct (IH s H) as [rest ->]. by exists rest.
Qed.

Lemma str_replace_go_skip (old new : string) (a rest : string) :
  str_replace_go old new (String.length a) (a +:+ rest)
  = str_replace_go old new 0 rest.
Proof.
  induction a as [|c a IH]; [by destruct rest|].
  rewrite append_cons. cbn. apply IH.
Qed.

(** Replacing a text by itself changes nothing. *)
Lemma str_replace_same (old s : string) : str_replace old old s = s.
Proof.
  destruct old as [|c0 old].
  - cbn. induction s as [|c s IH]; [done|]. cbn. by rewrite IH.
  - unfold str_replace. set (o := String c0 old).
    assert (H : ∀ n t, (String.length t <= n)%nat → str_replace_go o o 0 t = t).
    { induction n as [|n IH]; intros t Hn.
      - destruct t; [done|cbn in Hn; lia].
      - destruct t as [|c t]; [done|]. cbn [str_replace_go].
        destruct (String.prefix o (String c t)) eqn:Hp.
        + apply prefix_split in Hp as [rest Hrest]. unfold o in Hrest.
          rewrite append_cons in Hrest. injection Hrest as -> ->.
          replace (String.length o - 1)%nat with (String.length old)
            by (unfold o; cbn; lia).
          rewrite str_replace_go_skip.
          rewrite IH; [done|].
          cbn in Hn. rewrite length_append' in Hn. lia.
        + rewrite IH; [done|]. cbn in Hn. lia. }
    by apply (H (String.length s)).
Qed.

(** ** Dictionaries *)

Section dicts.
Context {K V : Type} `{EqDecision K}.
Implicit Types (d : list (K * V)) (k : K) (v : V).

Lemma dict_get_set_eq d k v : dict_get (dict_set d k v) k = Some v.
Proof.
  induction d as [|[k' v'] d IH]; cbn.
  - by rewrite decide_True.
  - destruct (decide (k = k')) as [->|Hne]; cbn.
    + by rewrite decide_True.
    + by rewrite decide_False.
Qed.

Lemma dict_get_set_ne d k k' v :
  k ≠ k' → dict_get (dict_set d k v) k' = dict_get d k'.
Proof.
  intros Hne. induction d as [|[k0 v0] d IH]; cbn.
  - by rewrite decide_False.
  - destruct (decide (k = k0)) as [->|Hne0]; cbn.
    + by rewrite !decide_False.
    + destruct (decide (k' = k0)); [done|apply IH].
Qed.

Lemma dict_get_None d k : dict_get d k = None ↔ k ∉ d.*1.
Proof.
  induction d as [|[k' v'] d IH]; cbn.
  - split; [intros _; apply not_elem_of_nil|done].
  - rewrite not_elem_of_cons, <- IH.
    destruct (decide (k = k')); [split; [done|tauto]|tauto].
Qed.

Lemma dict_get_Some_elem_of d k v : dict_get d k = Some v → (k, v) ∈ d.
Proof.
  induction d as [|[k' v'] d IH]; cbn; [done|].
  destruct (decide (k = k')) as [->|Hne].
  - intros [= ->]. by left.
  - intros H'. right. by apply IH.
Qed.

Lemma dict_get_filter_key d k (P : K → Prop) `{∀ x, Decision (P x)} :
  dict_get (filter (λ kv, P kv.1) d) k = if decide (P k) then dict_get d k else None.
Proof.
  induction d as [|[k' v'] d IH]; [by destruct (decide (P k))|].
  rewrite filter_cons. cbn [fst]. cbn [dict_get].
  destruct (decide (P k')) as [HP|HP]; cbn [dict_get]; rewrite ?IH;
    destruct (decide (k = k')) as [E|Hne]; destruct (decide (P k));
    try done; by subst.
Qed.

End dicts.

(** ** ConfigLoader: merging *)

Section config_merge.
Import ConfigLoader.

Lemma _deep_merge_nil (base : dict) : _deep_merge base [] = base.
Proof. reflexivity. Qed.

(** One turn of the loop of [_deep_merge]. *)
Lemma _deep_merge_cons (base : dict) (key : string) (value : JValue)
    (rest : dict) :
  _deep_merge base ((key, value) :: rest)
  = _deep_merge
      (dict_set base key
         (match dict_get base key, value with
          | Some (JDict inner), JDict items => JDict (_deep_merge inner items)
          | _, _ => value
          end)) rest.
Proof.
  unfold _deep_merge. cbn [deep_merge_value].
  destruct (dict_get base key) as [[]|]; destruct value; reflexivity.
Qed.

(** Keys the override does not mention keep their value. *)
Lemma _deep_merge_untouched (base override : dict) (key : string) :
  key ∉ override.*1 →
  dict_get (_deep_merge base override) key = dict_get base key.
Proof.
  revert base. induction override as [|[k v] rest IH]; intros base Hkey; [done|].
  rewrite fmap_cons, not_elem_of_cons in Hkey. destruct Hkey as [Hne Hkey].
  rewrite _deep_merge_cons, IH by done. cbn [fst] in Hne.
  by apply dict_get_set_ne.
Qed.

(** A key of the override: its value replaces the base value, unless
    both values are mappings, which are merged in turn. *)
Lemma _deep_merge_override (base override : dict) (key : string)
    (value : JValue) :
  NoDup override.*1 → dict_get override key = Some value →
  dict_get (_deep_merge base override) key
  = Some (match dict_get base key, value with
          | Some (JDict inner), JDict items => JDict (_deep_merge inner items)
          | _, _ => value
          end).
Proof.
  revert base. induction override as [|[k v] rest IH]; intros base Hnd Hget;
    [done|].
  rewrite fmap_cons in Hnd. apply NoDup_cons in Hnd as [Hk Hnd].
  rewrite _deep_merge_cons. cbn [dict_get] in Hget. cbn [fst] in Hk.
  destruct (decide (key = k)) as [->|Hne].
  - injection Hget as ->. rewrite _deep_merge_untouched by done.
    apply dict_get_set_eq.
  - rewrite (IH _ Hnd Hget). by rewrite dict_get_set_ne.
Qed.

Lemma _deep_merge_keys (base override : dict) (key : string) :
  is_Some (dict_get (_deep_merge base override) key)
  ↔ is_Some (dict_get base key) ∨ key ∈ override.*1.
Proof.
  revert base. induction override as [|[k v] rest IH]; intros base.
  - rewrite _deep_merge_nil, fmap_nil, elem_of_nil. tauto.
  - rewrite _deep_merge_cons, IH, fmap_cons, elem_of_cons. cbn [fst].
    destruct (decide (key = k)) as [->|Hne].
    + rewrite dict_get_set_eq. split; [tauto|intros _; left; by eexists].
    + rewrite dict_get_set_ne by done. tauto.
Qed.

Lemma walk_JNull (keys : list string) : keys ≠ [] → walk JNull keys = JNull.
Proof. by destruct keys. Qed.

Lemma walk_app (value : JValue) (keys1 keys2 : list string) :
  walk value (keys1 ++ keys2) = walk (walk value keys1) keys2.
Proof.
  revert value. induction keys1 as [|k keys1 IH]; intros value; [done|].
  cbn. destruct value as [| | | | | |d]; try (by destruct keys2).
  destruct (dict_get d k); [apply IH|by destruct keys2].
Qed.

End config_merge.

(** ** ConfigLoader: look-ups, merging and validation *)

Section config_claims.
Import ConfigLoader.

Lemma unique_keys_dict_get (d : dict) (k : string) (x : JValue) :
  unique_keys (JDict d) → dict_get d k = Some x → unique_keys x.
Proof.
  intros [_ Hall]. induction d as [|[k' v'] d IH]; [done|].
  cbn [dict_get]. destruct Hall as [Hx Hall].
  destruct (decide (k = k')); [by intros [= <-]|by apply IH].
Qed.

(** X1.  Dotted paths compose: looking up [p.q] is looking up [q] in
    what [p] leads to, for any two paths, whether or not they exist in
    the configuration. *)
Theorem X1_get_nested_value_compose (config : JValue) (p q : string) :
  _get_nested_value config (p +:+ "." +:+ q)
  = _get_nested_value (_get_nested_value config p) q.
Proof.
  unfold _get_nested_value, str_split.
  change ("." +:+ q)%string with (String "."%char q).
  by rewrite str_split_go_app, walk_app.
Qed.

Lemma _deep_merge_lookup (base override : dict) (key : string) :
  NoDup override.*1 →
  dict_get (_deep_merge base override) key
  = match dict_get override key with
    | None => dict_get base key
    | Some value =>
        Some (match dict_get base key, value with
              | Some (JDict inner), JDict items => JDict (_deep_merge inner items)
              | _, _ => value
              end)
    end.
Proof.
  intros Hnd. destruct (dict_get override key) as [value|] eqn:Hget.
  - by apply _deep_merge_override.
  - apply _deep_merge_untouched. by apply dict_get_None.
Qed.

(** X2.  One level of [_deep_merge], for an override without repeated
    keys: the merged mapping has exactly the keys of the base and of the
    override; a key the override lacks keeps the base value; a key it has
    takes the override's value, except that two mappings are merged in
    turn. *)
Theorem X2_deep_merge_lookup (base override : dict) (key : string) :
  NoDup override.*1 →
  (is_Some (dict_get (_deep_merge base override) key)
   ↔ is_Some (dict_get base key) ∨ is_Some (dict_get override key)) ∧
  dict_get (_deep_merge base override) key
  = match dict_get override key with
    | None => dict_get base key
    | Some value =>
        Some (match dict_get base key, value with
              | Some (JDict inner), JDict items => JDict (_deep_merge inner items)
              | _, _ => value
              end)
    end.
Proof.
  intros Hnd. split; [|by apply _deep_merge_lookup].
  assert (Hin : key ∈ override.*1 ↔ is_Some (dict_get override key)).
  { rewrite <- not_eq_None_Some, dict_get_None.
    split; [by intros ? ?|apply dec_stable]. }
  rewrite _deep_merge_keys. tauto.
Qed.

(** X3.  The override wins at any depth: a dotted path that leads, in
    the override, to a value that is neither null nor a mapping leads to
    the same value in the merged configuration, whatever the base holds. *)
Theorem X3_deep_merge_override_wins (base override : dict) (path : string)
    (v : JValue) :
  unique_keys (JDict override) →
  _get_nested_value (JDict override) path = v →
  v ≠ JNull → (∀ d, v ≠ JDict d) →
  _get_nested_value (JDict (_deep_merge base override)) path = v.
Proof.
  unfold _get_nested_value. pose proof (str_split_nonempty "." path) as Hne.
  revert Hne base override. generalize (str_split "." path). clear path.
  intros keys. induction keys as [|k keys IH]; [done|].
  intros _ base override Hwf Hwalk Hnull Hleaf. cbn [walk] in *.
  destruct (dict_get override k) as [x|] eqn:Hget; [|congruence].
  rewrite (_deep_merge_override base override k x (proj1 Hwf) Hget).
  pose proof (unique_keys_dict_get _ _ _ Hwf Hget) as Hx.
  destruct keys as [|k' keys].
  - cbn [walk] in *. subst x.
    destruct (dict_get base k) as [[]|]; destruct v; try done.
    by destruct (Hleaf d0).
  - destruct x as [| | | | | |items]; try (cbn in Hwalk; congruence).
    destruct (dict_get base k) as [[| | | | | |inner]|]; try done.
    by apply IH.
Qed.

Lemma validate_fields_spec (config : JValue) (fields : list string) :
  match validate_fields config fields with
  | Ok _ => Forall (λ p, truthy (_get_nested_value config p) = true) fields
  | Raise e =>
      ∃ before p after,
        fields = before ++ p :: after ∧
        e = ConfigurationError (RequiredFieldMissing p) ∧
        truthy (_get_nested_value config p) = false ∧
        Forall (λ p, truthy (_get_nested_value config p) = true) before
  end.
Proof.
  induction fields as [|p fields IH]; [constructor|].
  cbn [validate_fields].
  destruct (truthy (_get_nested_value config p)) eqn:Hp; cbn [negb].
  - destruct (validate_fields config fields).
    + by constructor.
    + destruct IH as (before & p' & after & -> & -> & Hf & Hb).
      exists (p :: before), p', after. repeat split; try done. by constructor.
  - exists [], p, fields. by repeat split.
Qed.

(** X4.  [_validate] accepts a configuration exactly when each of the
    five required paths leads to a truthy value; otherwise it raises for
    the first required path, in the order of the list, that leads to a
    falsy one: missing, null, false, zero, or an empty string, list or
    mapping. *)
Theorem X4_validate_spec (config : JValue) :
  (_validate config = Ok tt ↔
   ∀ p, p ∈ required_fields → truthy (_get_nested_value config p) = true) ∧
  (∀ e, _validate config = Raise e →
     ∃ before p after,
       required_fields = before ++ p :: after ∧
       e = ConfigurationError (RequiredFieldMissing p) ∧
       truthy (_get_nested_value config p) = false ∧
       ∀ p', p' ∈ before → truthy (_get_nested_value config p') = true).
Proof.
  unfold _validate. pose proof (validate_fields_spec config required_fields) as H.
  destruct (validate_fields config required_fields) as [[]|e].
  - split; [|done]. split; [|done]. intros _. by apply Forall_forall.
  - destruct H as (before & p & after & Hsplit & -> & Hp & Hb). split.
    + split; [done|]. intros Hall. rewrite Hall in Hp; [done|].
      rewrite Hsplit. apply elem_of_app. right. by left.
    + intros e' [= <-]. exists before, p, after. repeat split; try done.
      by apply Forall_forall.
Qed.

(** X5.  On a mapping, [_merge_configs] returns exactly when the
    [environments] entry is a mapping in which the loader's environment
    is in turn a mapping.  Without an [environments] key, and with an
    [environments] mapping that lacks the environment, it raises the two
    ConfigurationErrors; the second lists the environments there are. *)
Theorem X5_merge_configs_outcome (self : t) (w : World) (config : dict) :
  ((∃ merged, _merge_configs self w (JDict config) = Ok merged) ↔
   ∃ environments env_config,
     dict_get config "environments"%string = Some (JDict environments) ∧
     dict_get environments (_environment self) = Some (JDict env_config)) ∧
  (dict_get config "environments"%string = None →
   _merge_configs self w (JDict config)
   = Raise (ConfigurationError NoEnvironmentsSection)) ∧
  (∀ environments,
     dict_get config "environments"%string = Some (JDict environments) →
     dict_get environments (_environment self) = None →
     _merge_configs self w (JDict config)
     = Raise (ConfigurationError
                (EnvironmentNotFound (_environment self) environments.*1))).
Proof.
  unfold _merge_configs. split; [|split].
  - split.
    + intros [merged H].
      destruct (dict_get config "environments"%string) as [[| | | | |l|envs]|];
        try done; repeat case_match; try done.
      by exists envs, d.
    + intros (envs & env_config & -> & ->). by eexists.
  - by intros ->.
  - by intros envs -> ->.
Qed.

(** X6.  What a successful [_merge_configs] holds (for an environment
    section without repeated keys): the [_metadata] entry is the
    loader's, whatever the file says under that key; every other key
    follows [_deep_merge] of the global settings, which never include
    the [environments] section, with the environment's settings. *)
Theorem X6_merge_configs_lookup (self : t) (w : World) (config : dict)
    (environments env_config merged : dict) (key : string) :
  dict_get config "environments"%string = Some (JDict environments) →
  dict_get environments (_environment self) = Some (JDict env_config) →
  NoDup env_config.*1 →
  _merge_configs self w (JDict config) = Ok merged →
  dict_get merged "_metadata"%string
  = Some (JDict [ ("environment", JStr (_environment self));
                  ("loaded_at", JStr (utcnow w));
                  ("config_path", JStr (config_path self)) ]%string) ∧
  (key ≠ "_metadata"%string →
   let global := if decide (key = "environments"%string) then None
                 else dict_get config key in
   dict_get merged key
   = match dict_get env_config key with
     | None => global
     | Some value =>
         Some (match global, value with
               | Some (JDict inner), JDict items => JDict (_deep_merge inner items)
               | _, _ => value
               end)
     end).
Proof.
  intros Henvs Henv Hnd. unfold _merge_configs. rewrite Henvs, Henv.
  intros [= <-]. split; [apply dict_get_set_eq|].
  intros Hkey. cbv zeta. rewrite dict_get_set_ne by done.
  rewrite _deep_merge_lookup by done.
  pose proof (dict_get_filter_key config key (λ k, k ≠ "environments"%string))
    as Hglobal.
  cbn beta in Hglobal. rewrite Hglobal.
  destruct (decide (key = "environments"%string)) as [->|Hne].
  - by rewrite decide_False by (by intros ?).
  - by rewrite decide_True.
Qed.

End config_claims.

(** ** ConfigLoader: loading *)

Section config_load.
Import ConfigLoader.

Lemma load_config_path (w : World) (self : t) (environment : option string) :
  config_path (load w self environment).1 = config_path self.
Proof.
  unfold load. destruct environment as [[|c e]|]; cbn [config_path];
    repeat case_match; done.
Qed.

(** X7.  Whatever the outcome, [load] keeps the loader's path and leaves
    its environment at the one asked for, or at the previous one when
    none (or the empty string) is given; a [load] that raises leaves the
    configuration loaded before in place, although the environment has
    already changed. *)
Theorem X7_load_state (w : World) (self : t) (environment : option string) :
  config_path (load w self environment).1 = config_path self ∧
  _environment (load w self environment).1
  = match environment with
    | Some (String _ _ as e) => e
    | _ => _environment self
    end ∧
  match (load w self environment).2 with
  | Ok merged => _config (load w self environment).1 = Some merged
  | Raise _ => _config (load w self environment).1 = _config self
  end.
Proof.
  split; [apply load_config_path|].
  unfold load.
  set (self0 := match environment with
                | Some (String _ _ as e) => mk (config_path self) (_config self) e
                | _ => self
                end).
  assert (He : _environment self0
               = match environment with
                 | Some (String _ _ as e) => e
                 | _ => _environment self
                 end) by (by destruct environment as [[|c e]|]).
  assert (Hc : _config self0 = _config self)
    by (by destruct environment as [[|c e]|]).
  destruct (files w !! config_path self0) as [[raw|]|]; [|done..].
  destruct (_merge_configs self0 w _) as [m|]; [|done].
  by destruct (_validate (JDict m)) as [[]|].
Qed.

(** X8.  A configuration returned by [load] has passed [_validate] and
    carries the loader's environment in its metadata; afterwards [get]
    on a required path returns the stored, truthy value (never the
    default) without reading the file again, whatever the world has
    become. *)
Theorem X8_load_then_get (w : World) (self self' : t)
    (environment : option string) (merged : dict) :
  load w self environment = (self', Ok merged) →
  _validate (JDict merged) = Ok tt ∧
  _get_nested_value (JDict merged) "_metadata.environment" = JStr (_environment self') ∧
  ∀ p, p ∈ required_fields →
    truthy (_get_nested_value (JDict merged) p) = true ∧
    ∀ w' default,
      get w' self' p default = (self', Ok (_get_nested_value (JDict merged) p)).
Proof.
  unfold load. intros H.
  set (self0 := match environment with
                | Some (String _ _ as e) => mk (config_path self) (_config self) e
                | _ => self
                end) in *.
  destruct (files w !! config_path self0) as [[raw|]|]; try done.
  destruct (_merge_configs self0 w _) as [m|] eqn:Hm; [|done].
  destruct (_validate (JDict m)) as [[]|] eqn:Hv; [|done].
  injection H as <- <-. split; [done|]. split.
  - unfold _merge_configs in Hm. repeat case_match; try done.
    injection Hm as <-. unfold _get_nested_value.
    change (str_split "." "_metadata.environment")
      with ["_metadata"; "environment"]%string.
    cbn [walk]. by rewrite dict_get_set_eq.
  - intros p Hp.
    pose proof (validate_fields_spec (JDict m) required_fields) as Hall.
    unfold _validate in Hv. rewrite Hv in Hall.
    rewrite Forall_forall in Hall. specialize (Hall p Hp). split; [done|].
    intros w' default. unfold get, ensure_loaded. cbn [_config].
    by destruct (_get_nested_value (JDict m) p).
Qed.

(** X9.  The singleton keeps its path: once a loader exists,
    [get_config] loads from the loader's path and ignores the
    [config_path] argument; with no loader yet the argument is used, and
    a file that does not exist leaves the singleton unset;
    [reload_config] always starts again from [config/settings.yaml]. *)
Theorem X9_get_config_path (w : World) (_config_loader : option t)
    (environment : option string) (path : string) :
  match _config_loader with
  | Some loader =>
      get_config w _config_loader environment path
      = (Some (load w loader environment).1, (load w loader environment).2)
      ∧ config_path (load w loader environment).1 = config_path loader
  | None =>
      match files w !! path with
      | None =>
          get_config w None environment path
          = (None, Raise (FileNotFoundError path))
      | Some _ =>
          ∃ loader, (get_config w None environment path).1 = Some loader ∧
                    config_path loader = path
      end
  end ∧
  match (reload_config w _config_loader environment).1 with
  | Some loader => config_path loader = "config/settings.yaml"%string
  | None => files w !! "config/settings.yaml"%string = None
  end.
Proof.
  assert (Hnew : ∀ p,
    match files w !! p with
    | None => get_config w None environment p = (None, Raise (FileNotFoundError p))
    | Some _ => ∃ loader, (get_config w None environment p).1 = Some loader ∧
                          config_path loader = p
    end).
  { intros p. unfold get_config, __init__.
    destruct (files w !! p) as [c|] eqn:Hf; [|done].
    set (l := mk p None _). exists (load w l environment).1.
    split; [by destruct (load w l environment)|]. apply load_config_path. }
  split.
  - destruct _config_loader as [loader|]; [|apply Hnew].
    split; [|apply load_config_path].
    unfold get_config. by destruct (load w loader environment).
  - unfold reload_config. specialize (Hnew "config/settings.yaml"%string).
    destruct (files w !! "config/settings.yaml"%string) as [c|].
    + destruct Hnew as (loader & -> & Hp). done.
    + by rewrite Hnew.
Qed.

End config_load.

(** The sample file, loaded for [dev]: the environment's resource group
    replaces the global one, the global location stays, and the
    placeholder of the variable that is not set is left as it is. *)
Example sample_load_dev :
  (λ r, match r with
        | ConfigLoader.Ok merged =>
            [ ConfigLoader._get_nested_value (JDict merged) "azure.resource_group";
              ConfigLoader._get_nested_value (JDict merged) "azure.location";
              ConfigLoader._get_nested_value (JDict merged) "storage.account_name";
              ConfigLoader._get_nested_value (JDict merged) "eventhub.namespace";
              ConfigLoader._get_nested_value (JDict merged) "environments";
              ConfigLoader._get_nested_value (JDict merged) "_metadata.environment" ]
        | ConfigLoader.Raise _ => []
        end) (ConfigLoader.load sample_world sample_loader None).2
  = [ JStr "rg-dev"; JStr "eastus"; JStr "sadev"; JStr "ehns-${STAGE}-01";
      JNull; JStr "dev" ].
Proof. vm_compute. reflexivity. Qed.

(** For [prod] the key vault name is overridden by an empty string, which
    [_validate] reports as missing; the loader is left on [prod]. *)
Example sample_load_prod :
  (λ r, (ConfigLoader._environment r.1, r.2))
    (ConfigLoader.load sample_world sample_loader (Some "prod"%string))
  = ("prod"%string,
     ConfigLoader.Raise
       (ConfigLoader.ConfigurationError
          (ConfigLoader.RequiredFieldMissing "keyvault.name"))).
Proof. vm_compute. reflexivity. Qed.

(** ** ConfigLoader: environment variables *)

Section config_substitute.
Import ConfigLoader.

(** Induction over a document, through its lists and mappings. *)
Lemma JValue_nested_ind (P : JValue → Prop) :
  P JNull → (∀ b, P (JBool b)) → (∀ n, P (JInt n)) → (∀ x, P (JFloat x)) →
  (∀ s, P (JStr s)) →
  (∀ l, Forall P l → P (JList l)) →
  (∀ d, Forall (λ kv, P kv.2) d → P (JDict d)) →
  ∀ v, P v.
Proof.
  intros HNull HBool HInt HFloat HStr HList HDict.
  fix IH 1. intros [| b | n | x | s | l | d].
  - exact HNull.
  - apply HBool.
  - apply HInt.
  - apply HFloat.
  - apply HStr.
  - apply HList.
    refine ((fix all (l : list JValue) : Forall P l :=
               match l with
               | [] => @List.Forall_nil _ P
               | x :: rest => @List.Forall_cons _ P x rest (IH x) (all rest)
               end) l).
  - apply HDict.
    refine ((fix all (d : dict) : Forall (λ kv, P kv.2) d :=
               match d with
               | [] => @List.Forall_nil _ (λ kv, P kv.2)
               | (k, x) :: rest =>
                   @List.Forall_cons _ (λ kv, P kv.2) (k, x) rest (IH x) (all rest)
               end) d).
Qed.

Lemma substitute_string_unset (environ : gmap string string) (s : string) :
  (∀ name, name ∈ findall_placeholders s → environ !! name = None) →
  substitute_string environ s = s.
Proof.
  unfold substitute_string. generalize (findall_placeholders s).
  intros names Hunset. induction names as [|name names IH]; [done|].
  cbn [foldl]. rewrite (Hunset name) by (by left). cbn [default].
  rewrite str_replace_same. apply IH. intros name' Hin. apply Hunset. by right.
Qed.

(** X10.  Variables that are not set leave their placeholders as they
    are: a string none of whose placeholders names a set variable is
    returned unchanged, and with an empty environment
    [_substitute_env_vars] is the identity on the whole document. *)
Theorem X10_substitute_unset_identity :
  (∀ (environ : gmap string string) (s : string),
     (∀ name, name ∈ findall_placeholders s → environ !! name = None) →
     _substitute_env_vars environ (JStr s) = JStr s) ∧
  (∀ config, _substitute_env_vars ∅ config = config).
Proof.
  split.
  - intros environ s H. cbn. by rewrite substitute_string_unset.
  - induction config as [| | | | s | l IH | d IH] using JValue_nested_ind;
      try done.
    + cbn. by rewrite substitute_string_unset.
    + cbn [_substitute_env_vars]. f_equal.
      induction IH as [|x l Hx _ IHl]; [done|]. by rewrite Hx, IHl.
    + cbn [_substitute_env_vars]. f_equal.
      induction IH as [|[k x] d Hx _ IHd]; [done|]. cbn [snd] in Hx.
      by rewrite Hx, IHd.
Qed.

End config_substitute.

Section config_placeholder.
Import ConfigLoader.

Lemma str_contains_char (c x : ascii) (s : string) :
  str_contains (String c EmptyString) (String x s) = false ↔
  c ≠ x ∧ str_contains (String c EmptyString) s = false.
Proof.
  cbn [str_contains String.prefix].
  destruct (Ascii.ascii_dec c x) as [->|Hne].
  - destruct s; cbn; split; (done || tauto).
  - cbn. tauto.
Qed.

Lemma prefix_append (p rest : string) : String.prefix p (p +:+ rest) = true.
Proof.
  induction p as [|c p IH]; [by destruct rest|].
  rewrite append_cons. cbn. by destruct (Ascii.ascii_dec c c).
Qed.

Lemma findall_go_no_dollar (pre rest : string) :
  str_contains "$" pre = false →
  findall_go Outside (pre +:+ rest) = findall_go Outside rest.
Proof.
  induction pre as [|c pre IH]; intros H; [done|].
  apply str_contains_char in H as [Hc H]. rewrite append_cons.
  cbn [findall_go]. destruct (Ascii.eqb_spec c "$") as [->|_]; [done|].
  by apply IH.
Qed.

Lemma findall_go_in_var (acc name post : string) :
  str_contains "}" name = false →
  (acc +:+ name)%string ≠ EmptyString →
  findall_go (InVar acc) (name +:+ String "}" post)
  = (acc +:+ name)%string :: findall_go Outside post.
Proof.
  revert acc. induction name as [|c name IH]; intros acc H Hne.
  - rewrite append_nil_l, append_nil_r in *. cbn [findall_go].
    rewrite Ascii.eqb_refl. by destruct acc.
  - apply str_contains_char in H as [Hc H]. rewrite append_cons.
    cbn [findall_go]. destruct (Ascii.eqb_spec c "}") as [->|_]; [done|].
    rewrite IH; [|done|].
    + by rewrite append_assoc.
    + rewrite append_assoc. by destruct acc.
Qed.

Lemma str_replace_go_no_dollar (old' new pre rest : string) :
  str_contains "$" pre = false →
  str_replace_go (String "$" old') new 0 (pre +:+ rest)
  = (pre +:+ str_replace_go (String "$" old') new 0 rest)%string.
Proof.
  induction pre as [|c pre IH]; intros H; [done|].
  apply str_contains_char in H as [Hc H]. rewrite !append_cons.
  cbn [str_replace_go String.prefix].
  destruct (Ascii.ascii_dec "$" c) as [E|_]; [done|]. by rewrite IH.
Qed.

Lemma str_replace_go_occurrence (c0 : ascii) (old' new post : string) :
  str_replace_go (String c0 old') new 0 (String c0 old' +:+ post)
  = (new +:+ str_replace_go (String c0 old') new 0 post)%string.
Proof.
  rewrite append_cons. cbn [str_replace_go].
  rewrite <- append_cons, prefix_append.
  replace (String.length (String c0 old') - 1)%nat with (String.length old')
    by (cbn; lia).
  by rewrite str_replace_go_skip.
Qed.

Lemma placeholder_append (name post : string) :
  (placeholder name +:+ post)%string
  = String "$" (String "{" (name +:+ String "}" post)).
Proof.
  unfold placeholder.
  change (("${" +:+ name +:+ "}") +:+ post)%string
    with (String "$" (String "{" ((name +:+ "}") +:+ post))).
  by rewrite append_assoc.
Qed.

(** X11.  A string with one placeholder, whose variable is set and which
    has no other dollar sign, gets exactly the placeholder replaced by
    the variable's value. *)
Theorem X11_substitute_placeholder (environ : gmap string string)
    (pre name post value : string) :
  str_contains "$" pre = false → str_contains "$" post = false →
  str_contains "}" name = false → name ≠ EmptyString →
  environ !! name = Some value →
  _substitute_env_vars environ (JStr (pre +:+ placeholder name +:+ post))
  = JStr (pre +:+ value +:+ post).
Proof.
  intros Hpre Hpost Hname Hne Hset. cbn [_substitute_env_vars]. f_equal.
  unfold substitute_string, findall_placeholders.
  assert (Hfind : findall_go Outside (pre +:+ placeholder name +:+ post) = [name]).
  { rewrite findall_go_no_dollar, placeholder_append by done.
    change (findall_go Outside (String "$" (String "{" ?x)))
      with (findall_go (InVar EmptyString) x).
    rewrite findall_go_in_var by done. rewrite append_nil_l. f_equal.
    rewrite <- (append_nil_r post) at 1. by rewrite findall_go_no_dollar. }
  rewrite Hfind. cbn [foldl]. rewrite Hset. cbn [default].
  set (old' := String "{" (name +:+ "}")).
  change (placeholder name) with (String "$" old'). cbn [str_replace].
  rewrite str_replace_go_no_dollar, str_replace_go_occurrence by done.
  do 2 f_equal. rewrite <- (append_nil_r post) at 1.
  rewrite str_replace_go_no_dollar by done. by rewrite append_nil_r.
Qed.

End config_placeholder.

(** ** TrafficSimulator: the remaining fields of a reading *)

Lemma round_ge_scaled (x : Q) (nd : nat) (m : Z) :
  (inject_Z m <= x * inject_Z (10 ^ Z.of_nat nd))%Q →
  (inject_Z m / inject_Z (10 ^ Z.of_nat nd) <= round x nd)%Q.
Proof.
  intros H. unfold round, Qdiv. pose proof (pow10_pos nd) as Hp.
  apply Qmult_le_compat_r.
  - rewrite <- Zle_Qle. by apply round_half_even_ge.
  - apply Qinv_le_0_compat. rewrite <- (Zle_Qle 0). lia.
Qed.

Lemma round_le_scaled (x : Q) (nd : nat) (m : Z) :
  (x * inject_Z (10 ^ Z.of_nat nd) <= inject_Z m)%Q →
  (round x nd <= inject_Z m / inject_Z (10 ^ Z.of_nat nd))%Q.
Proof.
  intros H. unfold round, Qdiv. pose proof (pow10_pos nd) as Hp.
  apply Qmult_le_compat_r.
  - rewrite <- Zle_Qle. by apply round_half_even_le.
  - apply Qinv_le_0_compat. rewrite <- (Zle_Qle 0). lia.
Qed.

Section reading_fields.
Import TrafficSimulator.

(** The time factor, at any hour (the default after the loop included). *)
Lemma get_traffic_multiplier_bounds (ts : datetime) (u : Q) :
  unit_draw u →
  (0 < get_traffic_multiplier ts u)%Q ∧ (get_traffic_multiplier ts u <= 1.92)%Q.
Proof.
  intros Hu. destruct (uniform_bounds 0.8 1.2 u) as [Hlo Hhi]; [done|done|].
  unfold get_traffic_multiplier. set (jitter := uniform 0.8 1.2 u) in *.
  cbn [matched_band time_of_day_patterns].
  repeat (match goal with
          | |- context [if ?b then _ else _] => destruct b
          end); split; (lra || done).
Qed.

Lemma get_weather_impact_le (c : Condition) (wm : Q) :
  get_weather_impact c = Some wm → (0 < wm)%Q ∧ (wm <= 1)%Q.
Proof.
  unfold get_weather_impact. destruct c; cbn; intros [= <-]; split; done.
Qed.

Lemma district_multipliers_bounds (d : District) :
  (0 < district_multipliers d)%Q ∧ (district_multipliers d <= 1.5)%Q.
Proof. destruct d; split; done. Qed.

(** The fields of a returned reading that [generate_reading_Some] leaves
    out. *)
Lemma generate_reading_fields x ts rnd r :
  generate_reading x ts rnd = Some r →
  let base_capacity :=
    (Intersection.lanes_north_south x + Intersection.lanes_east_west x) * 10 in
  let total := TrafficReading.vehicle_count r in
  let occupancy := Qmin 1.0 (inject_Z total / inject_Z (base_capacity * 2)) in
  (∃ wm, get_weather_impact (weather_draw rnd) = Some wm ∧
         total = 0 `max` (int_of_float
                            (inject_Z base_capacity
                             * get_traffic_multiplier ts (time_u rnd)
                             * district_multipliers (Intersection.district x)
                             * wm)
                          + count_jitter rnd)) ∧
  TrafficReading.wait_time_seconds r
    = round (occupancy * uniform 30 120 (wait_u rnd)) 1 ∧
  TrafficReading.queue_length r
    = int_of_float (occupancy * inject_Z base_capacity * 0.5) ∧
  TrafficReading.sensor_id r
    = (Intersection.intersection_id x +:+ "-SENSOR-01")%string ∧
  TrafficReading.signal_state r = signal_draw rnd.
Proof.
  unfold generate_reading. intros H.
  destruct (get_weather_impact (weather_draw rnd)) as [wm|] eqn:Hw; [|done].
  cbn [mbind option_bind] in H.
  destruct (truediv _ _) as [ratio|] eqn:Hr; [|done].
  cbn [mbind option_bind] in H. injection H as <-.
  unfold truediv in Hr. case_match; [done|]. injection Hr as <-.
  cbn. split; [by exists wm|done].
Qed.

End reading_fields.

Section reading_ranges.
Import TrafficSimulator.

Lemma occupancy_unit (total max_capacity : Z) :
  0 <= total → 0 < max_capacity →
  (0 <= Qmin 1.0 (inject_Z total / inject_Z max_capacity))%Q ∧
  (Qmin 1.0 (inject_Z total / inject_Z max_capacity) <= 1)%Q.
Proof.
  intros Ht Hc.
  assert (Hcap : (0 < inject_Z max_capacity)%Q) by (by rewrite <- (Zlt_Qlt 0)).
  split.
  - apply Q.min_glb; [done|]. apply Qle_shift_div_l; [done|].
    rewrite Qmult_0_l. by rewrite <- (Zle_Qle 0).
  - eapply Qle_trans; [apply Q.le_min_l|done].
Qed.

Lemma int_of_float_le_Z (x : Q) (m : Z) :
  (0 <= x)%Q → (x <= inject_Z m)%Q → int_of_float x <= m.
Proof.
  intros H0 Hm. rewrite Zle_Qle.
  eapply Qle_trans; [by apply int_of_float_le|done].
Qed.

(** X12.  The floor of 5 in [max(5, average_speed)] never applies: with
    a positive lane count the speed before rounding is
    35 * (1 - 0.7 * occupancy), which is at least 10.5, so the reading's
    average_speed is that value rounded and lies in [10.5, 35]. *)
Theorem X12_average_speed_floor_inactive (x : Intersection.t) (ts : datetime)
    (rnd : ReadingDraw) (r : TrafficReading.t) :
  0 < Intersection.lanes_north_south x + Intersection.lanes_east_west x →
  generate_reading x ts rnd = Some r →
  let occupancy :=
    Qmin 1.0 (inject_Z (TrafficReading.vehicle_count r)
              / inject_Z ((Intersection.lanes_north_south x
                           + Intersection.lanes_east_west x) * 10 * 2)) in
  TrafficReading.average_speed r = round (35 * (1 - occupancy * 0.7)) 2 ∧
  (10.5 <= TrafficReading.average_speed r)%Q ∧
  (TrafficReading.average_speed r <= 35)%Q.
Proof.
  intros Hl Hr. cbv zeta.
  destruct (generate_reading_Some _ _ _ _ Hr) as (Ht & _ & _ & -> & _).
  destruct (occupancy_unit (TrafficReading.vehicle_count r)
              ((Intersection.lanes_north_south x
                + Intersection.lanes_east_west x) * 10 * 2)) as [H0 H1];
    [done|lia|].
  set (occupancy := Qmin 1.0 _) in *.
  assert (Hmax : Qmax 5 (35 * (1 - occupancy * 0.7)) = (35 * (1 - occupancy * 0.7))%Q).
  { unfold Qmax, GenericMinMax.gmax.
    destruct (Qcompare 5 (35 * (1 - occupancy * 0.7))) eqn:Hc; [|done|].
    - apply Qeq_alt in Hc. lra.
    - apply Qgt_alt in Hc. lra. }
  rewrite Hmax. split; [done|]. split.
  - apply Qle_trans with (inject_Z 1050 / inject_Z (10 ^ Z.of_nat 2))%Q; [done|].
    apply round_ge_scaled. change (inject_Z (10 ^ Z.of_nat 2)) with 100%Q.
    change (inject_Z 1050) with 1050%Q. lra.
  - apply (round_le _ 2 35). change (inject_Z 35) with 35%Q. lra.
Qed.

(** X13.  For an intersection with two to four lanes on each axis and
    valid draws, a returned reading has at most 235 vehicles, a queue of
    at most 40 and a waiting time of at most 120 seconds, so that, with
    the occupancy in [0, 1] and the speed in [10.5, 35], each of these
    five fields lies inside the interval the validator's VALUE_RANGES
    declares for it. *)
Theorem X13_reading_within_value_ranges (x : Intersection.t) (ts : datetime)
    (rnd : ReadingDraw) (r : TrafficReading.t) :
  2 <= Intersection.lanes_north_south x <= 4 →
  2 <= Intersection.lanes_east_west x <= 4 →
  ReadingDraw_ok rnd →
  generate_reading x ts rnd = Some r →
  (0 <= TrafficReading.vehicle_count r <= 235 ∧
   0 <= TrafficReading.queue_length r <= 40 ∧
   (0 <= TrafficReading.wait_time_seconds r)%Q ∧
   (TrafficReading.wait_time_seconds r <= 120)%Q) ∧
  Forall (λ field : string * Q,
            ∃ lo hi, dict_get TrafficDataValidator.VALUE_RANGES field.1
                     = Some (lo, hi) ∧
                     (lo <= field.2)%Q ∧ (field.2 <= hi)%Q)
    [ ("vehicle_count", inject_Z (TrafficReading.vehicle_count r));
      ("average_speed", TrafficReading.average_speed r);
      ("occupancy_rate", TrafficReading.occupancy_rate r);
      ("wait_time_seconds", TrafficReading.wait_time_seconds r);
      ("queue_length", inject_Z (TrafficReading.queue_length r)) ]%string.
Proof.
  intros Hns Hew (Htu & _ & Hj & _ & _ & _ & _ & Hwu) Hr.
  destruct (generate_reading_bounds x ts rnd r Hr) as (Ho0 & Ho1 & Hs5 & Hs35);
    [lia|].
  destruct (generate_reading_Some _ _ _ _ Hr) as (Ht & _).
  destruct (generate_reading_fields _ _ _ _ Hr)
    as ((wm & Hwm & Hcount) & Hwait & Hqueue & _).
  set (base := (Intersection.lanes_north_south x
                + Intersection.lanes_east_west x) * 10) in *.
  set (total := TrafficReading.vehicle_count r) in *.
  destruct (occupancy_unit total (base * 2)) as [Hocc0 Hocc1]; [done|lia|].
  set (occupancy := Qmin 1.0 _) in *.
  assert (Hb0 : (0 <= inject_Z base)%Q) by (rewrite <- (Zle_Qle 0); lia).
  assert (Hb80 : (inject_Z base <= 80)%Q) by (rewrite <- (Zle_Qle _ 80); lia).
  destruct (get_traffic_multiplier_bounds ts (time_u rnd) Htu) as [Htm0 Htm].
  destruct (district_multipliers_bounds (Intersection.district x)) as [Hd0 Hd].
  destruct (get_weather_impact_le _ _ Hwm) as [Hw0 Hw1].
  assert (Hcount235 : total <= 235).
  { rewrite Hcount. apply Z.max_lub; [lia|].
    cut (int_of_float (inject_Z base * get_traffic_multiplier ts (time_u rnd)
                       * district_multipliers (Intersection.district x) * wm)
         <= 230); [lia|].
    assert (H1 : (inject_Z base * get_traffic_multiplier ts (time_u rnd)
                  <= 80 * 1.92)%Q)
      by (apply Qmult_le_compat_nonneg; split; (done || by apply Qlt_le_weak)).
    assert (H1' : (0 <= inject_Z base * get_traffic_multiplier ts (time_u rnd))%Q)
      by (apply Qmult_le_0_compat; [done|by apply Qlt_le_weak]).
    assert (H2 : (inject_Z base * get_traffic_multiplier ts (time_u rnd)
                  * district_multipliers (Intersection.district x)
                  <= 80 * 1.92 * 1.5)%Q)
      by (apply Qmult_le_compat_nonneg; split; (done || by apply Qlt_le_weak)).
    assert (H2' : (0 <= inject_Z base * get_traffic_multiplier ts (time_u rnd)
                        * district_multipliers (Intersection.district x))%Q)
      by (apply Qmult_le_0_compat; [done|by apply Qlt_le_weak]).
    assert (H3 : (inject_Z base * get_traffic_multiplier ts (time_u rnd)
                  * district_multipliers (Intersection.district x) * wm
                  <= 80 * 1.92 * 1.5 * 1)%Q)
      by (apply Qmult_le_compat_nonneg; split; (done || by apply Qlt_le_weak)).
    assert (H3' : (0 <= inject_Z base * get_traffic_multiplier ts (time_u rnd)
                        * district_multipliers (Intersection.district x) * wm)%Q)
      by (apply Qmult_le_0_compat; [done|by apply Qlt_le_weak]).
    pose proof (int_of_float_le _ H3') as Hint.
    set (k := int_of_float _) in *.
    assert (Hk : (inject_Z k <= 230.4)%Q)
      by (eapply Qle_trans; [exact Hint|]; eapply Qle_trans; [exact H3|done]).
    unfold Qle in Hk. cbn in Hk. lia. }
  assert (Hq : (0 <= occupancy * inject_Z base * 0.5)%Q
               ∧ (occupancy * inject_Z base * 0.5 <= inject_Z 40)%Q).
  { assert (H1 : (occupancy * inject_Z base <= 1 * 80)%Q)
      by (by apply Qmult_le_compat_nonneg).
    assert (H1' : (0 <= occupancy * inject_Z base)%Q)
      by (by apply Qmult_le_0_compat).
    change (inject_Z 40) with 40%Q. split; lra. }
  assert (Hqueue40 : 0 <= TrafficReading.queue_length r <= 40).
  { rewrite Hqueue. destruct Hq as [Hq0 Hq40].
    split; [by apply int_of_float_nonneg|by apply int_of_float_le_Z]. }
  assert (Hwait120 : (0 <= TrafficReading.wait_time_seconds r)%Q
                     ∧ (TrafficReading.wait_time_seconds r <= 120)%Q).
  { rewrite Hwait.
    destruct (uniform_bounds 30 120 (wait_u rnd)) as [Hu30 Hu120]; [done|done|].
    assert (H1 : (occupancy * uniform 30 120 (wait_u rnd) <= 1 * 120)%Q)
      by (apply Qmult_le_compat_nonneg; split; (done || lra)).
    assert (H1' : (0 <= occupancy * uniform 30 120 (wait_u rnd))%Q)
      by (apply Qmult_le_0_compat; [done|lra]).
    split; [by apply (round_ge _ 1 0)|].
    apply (round_le _ 1 120). change (inject_Z 120) with 120%Q. lra. }
  split; [tauto|].
  assert (HtQ : (0 <= inject_Z total)%Q) by (by rewrite <- (Zle_Qle 0)).
  assert (HtQ' : (inject_Z total <= 235)%Q) by (by rewrite <- (Zle_Qle _ 235)).
  assert (HqQ : (0 <= inject_Z (TrafficReading.queue_length r))%Q)
    by (rewrite <- (Zle_Qle 0); lia).
  assert (HqQ' : (inject_Z (TrafficReading.queue_length r) <= 40)%Q)
    by (rewrite <- (Zle_Qle _ 40); lia).
  destruct Hwait120 as [Hw0' Hw120].
  repeat constructor; cbn [fst snd]; do 2 eexists;
    (split; [reflexivity|split; lra]).
Qed.

End reading_ranges.

(** ** The loop body of [main] *)

Section main_loop.
Import TrafficSimulator.

Lemma fsum_bounds (lo hi : Q) (l : list Q) :
  Forall (λ v, (lo <= v)%Q ∧ (v <= hi)%Q) l →
  (lo * inject_Z (Z.of_nat (length l)) <= Main.fsum l)%Q ∧
  (Main.fsum l <= hi * inject_Z (Z.of_nat (length l)))%Q.
Proof.
  unfold Main.fsum. intros H.
  assert (Hgen : ∀ a,
    (a + lo * inject_Z (Z.of_nat (length l)) <= foldl Qplus a l)%Q ∧
    (foldl Qplus a l <= a + hi * inject_Z (Z.of_nat (length l)))%Q).
  { induction H as [|v l [Hlo Hhi] _ IH]; intros a.
    - cbn [foldl length]. change (inject_Z (Z.of_nat 0)) with 0%Q. split; lra.
    - cbn [foldl length]. destruct (IH (a + v)%Q) as [IH1 IH2].
      rewrite Nat2Z.inj_succ, <- Z.add_1_r, inject_Z_plus.
      change (inject_Z 1) with 1%Q.
      set (n := inject_Z (Z.of_nat (length l))) in *.
      split; [eapply Qle_trans; [|exact IH1]|eapply Qle_trans; [exact IH2|]]; lra. }
  destruct (Hgen 0%Q) as [H1 H2]. split; lra.
Qed.

Lemma mean_bounds (lo hi : Q) (l : list Q) :
  l ≠ [] → Forall (λ v, (lo <= v)%Q ∧ (v <= hi)%Q) l →
  ∃ mean, Main.fdiv (Main.fsum l) (Z.of_nat (length l)) = Some mean ∧
          (lo <= mean)%Q ∧ (mean <= hi)%Q.
Proof.
  intros Hne H. destruct (fsum_bounds lo hi l H) as [H1 H2].
  unfold Main.fdiv.
  assert (Hlen : 0 < Z.of_nat (length l)) by (destruct l; [done|cbn; lia]).
  destruct (Z.eqb_spec (Z.of_nat (length l)) 0); [lia|].
  eexists. split; [done|].
  assert (Hn : (0 < inject_Z (Z.of_nat (length l)))%Q)
    by (by rewrite <- (Zlt_Qlt 0)).
  split; [by apply Qle_shift_div_l|by apply Qle_shift_div_r].
Qed.

Lemma sum_nonneg (l : list Z) : Forall (λ v, 0 <= v) l → 0 <= sum l.
Proof.
  unfold sum. intros H.
  assert (Hgen : ∀ a, 0 <= a → 0 <= foldl Z.add a l).
  { induction H as [|v l Hv _ IH]; intros a Ha; [done|]. cbn. apply IH. lia. }
  by apply Hgen.
Qed.

Lemma average_speed_bounds (x : Intersection.t) (ts : datetime)
    (rnd : ReadingDraw) (r : TrafficReading.t) :
  generate_reading x ts rnd = Some r →
  0 < Intersection.lanes_north_south x + Intersection.lanes_east_west x →
  (10.5 <= TrafficReading.average_speed r)%Q ∧
  (TrafficReading.average_speed r <= 35)%Q.
Proof.
  intros Hr Hl. split; [|by apply (generate_reading_bounds _ _ _ _ Hr)].
  destruct (generate_reading_Some _ _ _ _ Hr) as (Ht & _ & _ & -> & _).
  destruct (occupancy_unit (TrafficReading.vehicle_count r)
              ((Intersection.lanes_north_south x
                + Intersection.lanes_east_west x) * 10 * 2)) as [H0 H1];
    [done|lia|].
  set (occupancy := Qmin 1.0 _) in *.
  assert (Hm : (10.5 <= Qmax 5 (35 * (1 - occupancy * 0.7)))%Q)
    by (eapply Qle_trans; [|apply Q.le_max_r]; lra).
  apply Qle_trans with (inject_Z 1050 / inject_Z (10 ^ Z.of_nat 2))%Q; [done|].
  apply round_ge_scaled. change (inject_Z (10 ^ Z.of_nat 2)) with 100%Q.
  change (inject_Z 1050) with 1050%Q.
  set (m := Qmax _ _) in *. lra.
Qed.

Lemma readings_Some (intersections : list Intersection.t) (ts : datetime)
    (rnd : nat → ReadingDraw) (rs : list TrafficReading.t) :
  Main.readings intersections ts rnd = Some rs →
  length rs = length intersections ∧
  ∀ k r, rs !! k = Some r →
    ∃ x, intersections !! k = Some x ∧ generate_reading x ts (rnd k) = Some r.
Proof.
  unfold Main.readings. intros H. apply mapM_Some_1 in H. split.
  - apply Forall2_length in H. by rewrite length_imap in H.
  - intros k r Hk.
    destruct (Forall2_lookup_r _ _ _ _ _ H Hk) as ([k' x] & Hx & Hr).
    rewrite list_lookup_imap in Hx.
    destruct (intersections !! k) as [x'|]; [|done].
    injection Hx as <- <-. by exists x'.
Qed.

Lemma readings_is_Some (intersections : list Intersection.t) (ts : datetime)
    (rnd : nat → ReadingDraw) :
  Forall (λ x, Intersection.lanes_north_south x
               + Intersection.lanes_east_west x ≠ 0) intersections →
  (∀ k, ReadingDraw_ok (rnd k)) →
  is_Some (Main.readings intersections ts rnd).
Proof.
  intros Hl Hok. apply mapM_is_Some, Forall_forall. intros [k x] Hin.
  apply list_elem_of_lookup in Hin as [i Hi]. rewrite list_lookup_imap in Hi.
  destruct (intersections !! i) as [x'|] eqn:Hx; [|done]. injection Hi as <- <-.
  apply generate_reading_is_Some. split.
  - by destruct (Hok i) as (_ & ? & _).
  - by apply (Forall_lookup_1 _ _ _ _ Hl Hx).
Qed.

(** X14.  The readings and the statistics of one pass of the loop of
    [main] (the publishing step between them is [send_batch]), over
    intersections with at least two lanes per axis and valid draws: one
    reading per intersection, in order; over an empty grid the
    statistics raise ZeroDivisionError, and otherwise the total is
    non-negative, the average speed lies in [10.5, 35] and the average
    occupancy in [0, 1]. *)
Theorem X14_main_iteration (intersections : list Intersection.t)
    (ts : datetime) (rnd : nat → ReadingDraw) :
  Forall (λ x, 2 <= Intersection.lanes_north_south x
               ∧ 2 <= Intersection.lanes_east_west x) intersections →
  (∀ k, ReadingDraw_ok (rnd k)) →
  ∃ rs, Main.readings intersections ts rnd = Some rs ∧
        length rs = length intersections ∧
        (∀ k r, rs !! k = Some r →
           ∃ x, intersections !! k = Some x ∧
                TrafficReading.intersection_id r
                = Intersection.intersection_id x) ∧
        match intersections with
        | [] => Main.stats rs = None
        | _ =>
            ∃ total avg_speed avg_occupancy,
              Main.stats rs = Some (total, avg_speed, avg_occupancy) ∧
              0 <= total ∧
              (10.5 <= avg_speed)%Q ∧ (avg_speed <= 35)%Q ∧
              (0 <= avg_occupancy)%Q ∧ (avg_occupancy <= 1)%Q
        end.
Proof.
  intros Hl Hok.
  destruct (readings_is_Some intersections ts rnd) as [rs Hrs]; [|done|].
  { eapply Forall_impl; [exact Hl|]. cbn. intros; lia. }
  exists rs. split; [done|].
  destruct (readings_Some _ _ _ _ Hrs) as [Hlen Hrd]. split; [done|].
  assert (Hall : Forall (λ r,
            0 <= TrafficReading.vehicle_count r ∧
            ((10.5 <= TrafficReading.average_speed r)%Q
             ∧ (TrafficReading.average_speed r <= 35)%Q) ∧
            ((0 <= TrafficReading.occupancy_rate r)%Q
             ∧ (TrafficReading.occupancy_rate r <= 1)%Q)) rs).
  { apply Forall_lookup. intros k r Hk. destruct (Hrd k r Hk) as (x & Hx & Hr).
    destruct (Forall_lookup_1 _ _ _ _ Hl Hx) as [Hns Hew].
    destruct (generate_reading_Some _ _ _ _ Hr) as (Ht & _).
    destruct (generate_reading_bounds _ _ _ _ Hr) as (? & ? & _); [lia|].
    destruct (average_speed_bounds _ _ _ _ Hr) as [? ?]; [lia|]. done. }
  split.
  { intros k r Hk. destruct (Hrd k r Hk) as (x & Hx & Hr). exists x.
    split; [done|]. unfold generate_reading in Hr.
    destruct (get_weather_impact _); [|done]. cbn [mbind option_bind] in Hr.
    destruct (truediv _ _); [|done]. by injection Hr as <-. }
  destruct intersections as [|x0 xs].
  - destruct rs; [done|discriminate Hlen].
  - assert (Hne : rs ≠ []) by (by destruct rs).
    unfold Main.stats.
    destruct (mean_bounds 10.5 35 (TrafficReading.average_speed <$> rs))
      as (avg_speed & Hs & Hs1 & Hs2).
    { by destruct rs. }
    { apply Forall_fmap. eapply Forall_impl; [exact Hall|]. cbn. tauto. }
    destruct (mean_bounds 0 1 (TrafficReading.occupancy_rate <$> rs))
      as (avg_occ & Ho & Ho1 & Ho2).
    { by destruct rs. }
    { apply Forall_fmap. eapply Forall_impl; [exact Hall|]. cbn. tauto. }
    rewrite length_fmap in Hs, Ho. rewrite Hs, Ho. cbn [mbind option_bind].
    do 3 eexists. split; [done|]. split; [|done].
    apply sum_nonneg, Forall_fmap. eapply Forall_impl; [exact Hall|]. cbn. tauto.
Qed.

End main_loop.

(** ** Weather: how long a condition is held, and what a reading holds *)

Section weather_ranges.
Import WeatherSimulator.

Lemma run_lookup_call (self : t) (rnds : list Draw) (k : nat) (c : Call) :
  run self rnds !! k = Some c →
  after c = (generate_weather (before c) (draws c)).1 ∧
  reading c = (generate_weather (before c) (draws c)).2.
Proof.
  intros Hk. pose proof (Forall_lookup_1 _ _ _ _ (run_calls self rnds) Hk) as H.
  cbn beta in H. by rewrite <- H.
Qed.

Lemma run_head (self : t) (rnd : Draw) (rnds : list Draw) (c : Call) :
  run self (rnd :: rnds) !! 0%nat = Some c →
  c = Build_Call self rnd (generate_weather self rnd).1
                 (generate_weather self rnd).2.
Proof. rewrite run_cons. by intros [= <-]. Qed.

(** While the counter lasts, the calls see the same condition and a
    counter that has gone down by one per call. *)
Lemma run_before (self : t) (rnds : list Draw) (k : nat) (c : Call) :
  Z.of_nat k <= condition_duration self →
  run self rnds !! k = Some c →
  current_condition (before c) = current_condition self ∧
  condition_duration (before c) = condition_duration self - Z.of_nat k.
Proof.
  revert self k. induction rnds as [|rnd rnds IH]; intros self k Hk; [done|].
  rewrite run_cons. destruct k as [|k].
  - intros [= <-]. cbn [before]. split; [done|lia].
  - rewrite lookup_cons_ne_0 by done. cbn [Nat.pred]. intros Hc.
    assert (NE : condition_duration self ≠ 0) by lia.
    destruct (generate_weather_holding self rnd NE) as [Hcond Hdur].
    destruct (IH (generate_weather self rnd).1 k) as [E1 E2]; [lia|done|].
    rewrite E1, E2, Hcond, Hdur. split; [done|lia].
Qed.

(** X15.  A condition drawn when the counter is 0 is held for exactly
    the drawn number of calls: the call that draws it and the following
    ones, [duration_draw] calls in all, emit the drawn condition while
    the counter runs down to 0, and the call after them starts at 0 and
    emits its own draw. *)
Theorem X15_condition_held_for_drawn_duration (self : t) (rnd : Draw)
    (rnds : list Draw) :
  condition_duration self = 0 →
  (∀ k c, run self (rnd :: rnds) !! k = Some c →
     Z.of_nat k < duration_draw rnd →
     WeatherReading.condition (reading c) = condition_draw rnd ∧
     condition_duration (after c) = duration_draw rnd - 1 - Z.of_nat k) ∧
  (∀ c, run self (rnd :: rnds) !! Z.to_nat (duration_draw rnd) = Some c →
     0 < duration_draw rnd →
     condition_duration (before c) = 0 ∧
     WeatherReading.condition (reading c) = condition_draw (draws c)).
Proof.
  intros H0. destruct (generate_weather_expiring self rnd H0) as [Hc Hd].
  assert (Hbefore : ∀ k c, run self (rnd :: rnds) !! S k = Some c →
            Z.of_nat (S k) <= duration_draw rnd →
            current_condition (before c) = condition_draw rnd ∧
            condition_duration (before c) = duration_draw rnd - Z.of_nat (S k)).
  { intros k c Hk Hle. rewrite run_cons, lookup_cons_ne_0 in Hk by done.
    cbn [Nat.pred] in Hk.
    destruct (run_before (generate_weather self rnd).1 rnds k c) as [E1 E2];
      [lia|done|].
    rewrite E1, E2, Hc, Hd. split; [done|lia]. }
  split.
  - intros k c Hk Hlt. destruct k as [|k].
    + rewrite (run_head _ _ _ _ Hk). cbn [reading after].
      rewrite generate_weather_emits, Hc, Hd. split; [done|lia].
    + destruct (run_lookup_call _ _ _ _ Hk) as [Ha Hr].
      rewrite Hr, generate_weather_emits, <- Ha.
      destruct (Hbefore k c Hk) as [E1 E2]; [lia|].
      destruct (generate_weather_holding (before c) (draws c)) as [Hc' Hd'];
        [lia|].
      rewrite Ha, Hc', Hd', E1, E2. split; [done|lia].
  - intros c Hk Hpos. destruct (run_lookup_call _ _ _ _ Hk) as [Ha Hr].
    assert (Hz : condition_duration (before c) = 0).
    { destruct (Z.to_nat (duration_draw rnd)) as [|k] eqn:Hn; [lia|].
      destruct (Hbefore k c Hk) as [_ E2]; lia. }
    split; [done|].
    rewrite Hr, generate_weather_emits.
    by destruct (generate_weather_expiring (before c) (draws c) Hz).
Qed.

Lemma round_between (x lo hi : Q) (nd : nat) (a b : Z) :
  (lo == inject_Z a / inject_Z (10 ^ Z.of_nat nd))%Q →
  (hi == inject_Z b / inject_Z (10 ^ Z.of_nat nd))%Q →
  (lo <= x)%Q → (x <= hi)%Q →
  (lo <= round x nd)%Q ∧ (round x nd <= hi)%Q.
Proof.
  intros Hlo Hhi H1 H2. pose proof (pow10_pos nd) as Hp.
  assert (Hs : (0 < inject_Z (10 ^ Z.of_nat nd))%Q)
    by (rewrite <- (Zlt_Qlt 0); lia).
  set (s := inject_Z (10 ^ Z.of_nat nd)) in *.
  assert (Ha : (inject_Z a == lo * s)%Q) by (rewrite Hlo; field; lra).
  assert (Hb : (inject_Z b == hi * s)%Q) by (rewrite Hhi; field; lra).
  split.
  - rewrite Hlo. apply round_ge_scaled. fold s. rewrite Ha.
    apply Qmult_le_compat_r; [done|lra].
  - rewrite Hhi. apply round_le_scaled. fold s. rewrite Hb.
    apply Qmult_le_compat_r; [done|lra].
Qed.

(** The fields of a reading for condition [c], whatever the state. *)
Lemma params_ranges (c : Condition) (rnd : Draw) :
  Draw_ok rnd →
  let p := condition_params c in
  let temperature_f := round (uniform (temp p).1 (temp p).2 (temp_u rnd)) 1 in
  let humidity_ :=
    round (uniform (humidity p).1 (humidity p).2 (humidity_u rnd)) 2 in
  let precipitation_rate := (precip p * uniform 0.8 1.2 (precip_u rnd))%Q in
  let visibility_miles :=
    (visibility p * uniform 0.9 1.1 (visibility_u rnd))%Q in
  ((temp p).1 <= temperature_f)%Q ∧ (temperature_f <= (temp p).2)%Q ∧
  ((humidity p).1 <= humidity_)%Q ∧ (humidity_ <= (humidity p).2)%Q ∧
  (precip p * 0.8 <= precipitation_rate)%Q ∧
  (precipitation_rate <= precip p * 1.2)%Q ∧
  (visibility p * 0.9 <= visibility_miles)%Q ∧
  (visibility_miles <= visibility p * 1.1)%Q ∧
  (0 <= precip p)%Q ∧ (0 < visibility p)%Q.
Proof.
  intros (_ & Ht & Hh & Hp & Hv & _). cbv zeta.
  pose proof (uniform_bounds 0.8 1.2 (precip_u rnd)) as [Hp1 Hp2]; [done|done|].
  pose proof (uniform_bounds 0.9 1.1 (visibility_u rnd)) as [Hv1 Hv2];
    [done|done|].
  set (pu := uniform 0.8 1.2 _) in *. set (vu := uniform 0.9 1.1 _) in *.
  destruct c; cbn [condition_params temp humidity precip visibility fst snd].
  all: match goal with
       | |- (?a <= round (uniform ?a ?b ?u) 1)%Q ∧ _ ∧
            (?c <= round (uniform ?c ?d ?w) 2)%Q ∧ _ =>
           pose proof (uniform_bounds a b u) as [Ht1 Ht2]; [done|done|];
           pose proof (uniform_bounds c d w) as [Hh1 Hh2]; [done|done|];
           pose proof (round_between (uniform a b u) a b 1
                         (Qnum (Qred (a * 10))) (Qnum (Qred (b * 10))))
             as [Hrt1 Hrt2]; [done|done|done|done|];
           pose proof (round_between (uniform c d w) c d 2
                         (Qnum (Qred (c * 100))) (Qnum (Qred (d * 100))))
             as [Hrh1 Hrh2]; [done|done|done|done|]
       end.
  all: repeat split; try done; lra.
Qed.

(** X16.  Every weather reading lies in the ranges of the row of
    [condition_params] for its condition: temperature and humidity
    between the row's bounds (also after rounding), precipitation within
    20% and visibility within 10% of the row's base value, wind speed in
    [0, 25]; precipitation is zero exactly for clear, cloudy and fog;
    the position is the simulator's centre. *)
Theorem X16_weather_reading_ranges (self : t) (rnd : Draw) :
  Draw_ok rnd →
  let r := (generate_weather self rnd).2 in
  let p := condition_params (WeatherReading.condition r) in
  ((temp p).1 <= WeatherReading.temperature_f r)%Q ∧
  (WeatherReading.temperature_f r <= (temp p).2)%Q ∧
  ((humidity p).1 <= WeatherReading.humidity r)%Q ∧
  (WeatherReading.humidity r <= (humidity p).2)%Q ∧
  (precip p * 0.8 <= WeatherReading.precipitation_rate r)%Q ∧
  (WeatherReading.precipitation_rate r <= precip p * 1.2)%Q ∧
  (visibility p * 0.9 <= WeatherReading.visibility_miles r)%Q ∧
  (WeatherReading.visibility_miles r <= visibility p * 1.1)%Q ∧
  (0 <= WeatherReading.wind_speed_mph r)%Q ∧
  (WeatherReading.wind_speed_mph r <= 25)%Q ∧
  ((WeatherReading.precipitation_rate r == 0)%Q ↔
   WeatherReading.condition r ∈ [clear; cloudy; fog]) ∧
  (WeatherReading.latitude r, WeatherReading.longitude r) = city_center self.
Proof.
  intros Hok. cbv zeta.
  set (c := WeatherReading.condition (generate_weather self rnd).2).
  pose proof (params_ranges c rnd Hok) as H. cbv zeta in H.
  destruct H as (Ht1 & Ht2 & Hh1 & Hh2 & Hp1 & Hp2 & Hv1 & Hv2 & Hp0 & Hv0).
  destruct Hok as (_ & _ & _ & _ & _ & Hw).
  pose proof (uniform_bounds 0 25 (wind_u rnd)) as [Hw1 Hw2]; [done|done|].
  assert (Hr : (generate_weather self rnd).2
             = WeatherReading.mk "WEATHER-CENTRAL-01" (now rnd)
                    (round (uniform (temp (condition_params c)).1
                              (temp (condition_params c)).2 (temp_u rnd)) 1)
                    (round (uniform (humidity (condition_params c)).1
                              (humidity (condition_params c)).2
                              (humidity_u rnd)) 2)
                    (precip (condition_params c)
                     * uniform 0.8 1.2 (precip_u rnd))%Q
                    (visibility (condition_params c)
                     * uniform 0.9 1.1 (visibility_u rnd))%Q
                    (round (uniform 0 25 (wind_u rnd)) 1)
                    c (city_center self).1 (city_center self).2)
    by (unfold c, generate_weather; cbn; by destruct (bool_decide _)).
  rewrite Hr.
  cbn [WeatherReading.temperature_f WeatherReading.humidity
       WeatherReading.precipitation_rate WeatherReading.visibility_miles
       WeatherReading.wind_speed_mph WeatherReading.latitude
       WeatherReading.longitude].
  repeat (split; [done|]).
  split; [by apply (round_ge _ 1 0)|].
  split; [by apply (round_le _ 1 25)|].
  split; [|by destruct (city_center self)].
  set (rate := (precip (condition_params c)
                * uniform 0.8 1.2 (precip_u rnd))%Q) in *.
  assert (Hdry : c ∈ [clear; cloudy; fog] ↔ (precip (condition_params c) == 0)%Q).
  { rewrite !elem_of_cons, elem_of_nil. destruct c; cbn; split; intros H;
      try done; try tauto; try (exfalso; lra);
      destruct H as [H|[H|[H|H]]]; done. }
  rewrite Hdry. split; intros H; lra.
Qed.

End weather_ranges.

(** ** The validator's counters *)

Section validation_stats.
Import ValidationStats.

(** X17.  With counters [0 <= valid_messages <= total_messages] the
    validation rate is a percentage: between 0 and 100, 0.0 before any
    message, and 100 exactly when every message was valid. *)
Theorem X17_validation_rate_percentage (self : t) :
  0 <= valid_messages self <= total_messages self →
  (0 <= validation_rate self)%Q ∧ (validation_rate self <= 100)%Q ∧
  (total_messages self = 0 → validation_rate self = 0.0%Q) ∧
  (0 < total_messages self →
   ((validation_rate self == 100)%Q ↔
    valid_messages self = total_messages self)).
Proof.
  intros [Hv Ht]. unfold validation_rate.
  destruct (Z.eqb_spec (total_messages self) 0) as [E|NE].
  - repeat split; try done; lia.
  - assert (Hpos : (0 < inject_Z (total_messages self))%Q)
      by (rewrite <- (Zlt_Qlt 0); lia).
    assert (Hv' : (0 <= inject_Z (valid_messages self))%Q)
      by (by rewrite <- (Zle_Qle 0)).
    assert (Ht' : (inject_Z (valid_messages self)
                   <= inject_Z (total_messages self))%Q)
      by (by rewrite <- Zle_Qle).
    rewrite <- (inject_Z_injective (valid_messages self) (total_messages self)).
    set (v := inject_Z (valid_messages self)) in *.
    set (n := inject_Z (total_messages self)) in *.
    assert (H0 : (0 <= v / n)%Q) by (apply Qle_shift_div_l; [done|lra]).
    assert (H1 : (v / n <= 1)%Q) by (apply Qle_shift_div_r; [done|lra]).
    assert (Hvn : (v == v / n * n)%Q) by (field; lra).
    split; [lra|]. split; [lra|]. split; [lia|]. intros _. split.
    + intros H. assert (Hq : (v / n == 1)%Q) by lra. rewrite Hvn, Hq. lra.
    + intros H. rewrite H. field. lra.
Qed.

(** X18.  The throughput property reads the clock twice.  It raises
    ZeroDivisionError exactly when the first reading differs from the
    start time and the second equals it; with a clock that does not go
    backwards and a non-negative message count it returns a
    non-negative rate, 0.0 when no time has passed. *)
Theorem X18_messages_per_second (self : t) (now1 now2 : Q) :
  (messages_per_second self now1 now2 = None ↔
   ¬ (now1 == start_time self)%Q ∧ (now2 == start_time self)%Q) ∧
  ((now1 == start_time self)%Q →
   messages_per_second self now1 now2 = Some 0.0%Q) ∧
  ((start_time self <= now1)%Q → (now1 <= now2)%Q →
   0 <= total_messages self →
   ∃ v, messages_per_second self now1 now2 = Some v ∧ (0 <= v)%Q).
Proof.
  unfold messages_per_second, duration_seconds.
  destruct (Qeq_bool (now1 - start_time self) 0) eqn:E1;
    [apply Qeq_bool_iff in E1|apply Qeq_bool_neq in E1];
    (destruct (Qeq_bool (now2 - start_time self) 0) eqn:E2;
     [apply Qeq_bool_iff in E2|apply Qeq_bool_neq in E2]).
  - split; [|split].
    + split; [done|]. intros [H _]. destruct H. lra.
    + done.
    + intros _ _ _. by eexists.
  - split; [|split].
    + split; [done|]. intros [H _]. destruct H. lra.
    + done.
    + intros _ _ _. by eexists.
  - split; [|split].
    + split; [|done]. intros _. split; [|lra]. intros H. apply E1. lra.
    + intros H. destruct E1. lra.
    + intros H1 H2 _. exfalso. apply E1.
      assert ((now2 == start_time self)%Q) by lra. lra.
  - split; [|split].
    + split; [done|]. intros [_ H]. destruct E2. lra.
    + intros H. destruct E1. lra.
    + intros H1 H2 Hn. eexists. split; [done|].
      assert (Hd : (0 < now2 - start_time self)%Q).
      { destruct (Qlt_le_dec (start_time self) now1) as [Hlt|Hle]; [lra|].
        destruct E1. lra. }
      apply Qle_shift_div_l; [done|]. rewrite Qmult_0_l.
      by rewrite <- (Zle_Qle 0).
Qed.

End validation_stats.

(** ** [send_batch]: when it raises *)

Section publisher_raises.
Import EventHubPublisher.
Context {A : Type} (event_size : A → nat) (max_size : nat).

(** X19.  [send_batch] returns exactly when every reading fits in a
    batch on its own.  At the first reading that does not, the
    ValueError of the second [add] escapes: the readings before it have
    been handed over in order, that reading and those after it are
    never sent, and when it is the very first reading an empty batch
    has been sent. *)
Theorem X19_send_batch_raises_at_first_oversized (readings : list A) :
  ((∃ bs, send_batch event_size max_size readings = Returned bs) ↔
   Forall (λ r, (event_size r <= max_size)%nat) readings) ∧
  (∀ pre e post,
     readings = pre ++ e :: post →
     Forall (λ r, (event_size r <= max_size)%nat) pre →
     (max_size < event_size e)%nat →
     ∃ bs, send_batch event_size max_size readings = Raised bs ∧
           concat bs = pre ∧
           (pre = [] → bs = [[]])).
Proof.
  split; [apply send_batch_returns_iff|].
  intros pre e post -> Hpre He.
  destruct (send_loop_raises event_size max_size pre post [] e [] Hpre He)
    as (bs & Hrun & Hcat); [cbn; lia|].
  exists bs. split; [done|]. split; [done|]. intros ->.
  unfold send_batch in Hrun. cbn [app send_loop] in Hrun.
  rewrite (batch_add_oversized event_size max_size [] e He) in Hrun.
  by injection Hrun as <-.
Qed.

End publisher_raises.

(** ** The order of the grid *)

Section grid_order.
Import CityGrid.

Lemma lookup_bind_const {A B} (f : A → list B) (l : list A) (n a b : nat)
    (x : A) :
  (∀ y, length (f y) = n) → l !! a = Some x → (b < n)%nat →
  (l ≫= f) !! (a * n + b)%nat = f x !! b.
Proof.
  intros Hn. revert a. induction l as [|y l IH]; intros a Ha Hb; [done|].
  rewrite bind_cons. destruct a as [|a].
  - injection Ha as ->. cbn [Nat.mul Nat.add].
    by rewrite lookup_app_l by (rewrite Hn; lia).
  - cbn in Ha. rewrite lookup_app_r by (rewrite Hn; lia). rewrite Hn.
    replace (S a * n + b - n)%nat with (a * n + b)%nat by lia. by apply IH.
Qed.

Lemma cells_lookup (N i j : Z) :
  0 <= i < N → 0 <= j < N →
  cells N !! (Z.to_nat i * Z.to_nat N + Z.to_nat j)%nat = Some (i, j).
Proof.
  intros Hi Hj. unfold cells, range.
  rewrite (lookup_bind_const _ _ (Z.to_nat N) _ _ i).
  - replace (Z.to_nat j) with (Z.to_nat j * 1 + 0)%nat by lia.
    rewrite (lookup_bind_const _ _ 1%nat _ _ j); [done|done| |lia].
    apply lookup_seqZ. lia.
  - intros y. rewrite (length_bind_const _ _ 1%nat) by done.
    rewrite length_seqZ. lia.
  - apply lookup_seqZ. lia.
  - lia.
Qed.

(** X20.  The list of intersections is in row-major order: the entry at
    index k is the cell (k div N, k mod N), with that cell's
    identifier, street name and district. *)
Theorem X20_grid_row_major (center : Q * Q) (N : Z)
    (rnd : Z → Z → CellDraw) (l : list Intersection.t) (k : nat)
    (x : Intersection.t) :
  _generate_intersections center N rnd = Some l →
  l !! k = Some x →
  let i := Z.of_nat k / N in
  let j := Z.of_nat k `mod` N in
  0 <= i < N ∧ 0 <= j < N ∧
  Intersection.intersection_id x = cell_id (i, j) ∧
  Intersection.name x = (65 + i, " St & " +:+ str (j + 1) +:+ " Ave") ∧
  Intersection.district x = district_of i j ∧
  Intersection.has_camera x
  = Qltb (camera_draw (rnd i j)) (camera_prob (district_of i j)).
Proof.
  intros Hl Hk i j.
  pose proof (_generate_intersections_Some _ _ _ _ Hl) as H.
  destruct (Forall2_lookup_r _ _ _ k x H Hk) as ([i' j'] & Hc & Hx).
  pose proof (lookup_lt_Some _ _ _ Hc) as Hlen. rewrite length_cells in Hlen.
  assert (HN : 0 < N) by lia.
  assert (Hkk : Z.of_nat k < N * N) by nia.
  assert (Hi : 0 <= i < N).
  { unfold i. split; [apply Z.div_pos; lia|].
    apply Z.div_lt_upper_bound; lia. }
  assert (Hj : 0 <= j < N) by (apply Z.mod_pos_bound; lia).
  assert (Hidx : (Z.to_nat i * Z.to_nat N + Z.to_nat j)%nat = k).
  { apply Nat2Z.inj. rewrite Nat2Z.inj_add, Nat2Z.inj_mul, !Z2Nat.id by lia.
    pose proof (Z.div_mod (Z.of_nat k) N). unfold i, j. lia. }
  pose proof (cells_lookup N i j Hi Hj) as Hij. rewrite Hidx, Hc in Hij.
  injection Hij as -> ->. cbn [fst snd] in Hx.
  split; [done|]. split; [done|].
  unfold make_intersection in Hx. destruct center as [lat_base lon_base].
  unfold chr in Hx.
  destruct (Z.leb_spec 0 (65 + i)), (Z.ltb_spec (65 + i) 1114112);
    cbn in Hx; try done.
  by injection Hx as <-.
Qed.

End grid_order.

(** ** The accessors of a loaded configuration *)

Section accessors.
Import ConfigLoader.

Lemma str_split_go_no_sep (sep : ascii) (piece s : string) :
  str_contains (String sep EmptyString) s = false →
  str_split_go sep piece s = [(piece +:+ s)%string].
Proof.
  revert piece. induction s as [|c s IH]; intros piece H.
  - cbn. by rewrite append_nil_r.
  - apply str_contains_char in H as [Hne H]. cbn [str_split_go].
    destruct (Ascii.eqb_spec c sep) as [->|_]; [done|].
    rewrite (IH _ H), append_assoc. done.
Qed.

(** X21.  Once a configuration is loaded the accessors answer from it
    and leave the loader as it is, whatever the files and the
    environment have become.  For a key without a dot, [__getitem__]
    raises KeyError when the key is missing and returns a stored null,
    where [get] returns the default in both cases; on any other value
    the two agree. *)
Theorem X21_accessors_use_loaded_config (w : World) (self : t)
    (config : dict) (key : string) (default : JValue) :
  _config self = Some config →
  str_contains "." key = false →
  to_dict w self = (self, Ok config) ∧
  __getitem__ w self key
  = (self, match dict_get config key with
           | Some v => Ok v
           | None => Raise (KeyError key)
           end) ∧
  get w self key default
  = (self, Ok match dict_get config key with
              | Some JNull | None => default
              | Some v => v
              end).
Proof.
  intros Hc Hkey. unfold to_dict, __getitem__, get, ensure_loaded.
  rewrite Hc. split; [done|]. split; [done|].
  unfold _get_nested_value, str_split.
  rewrite (str_split_go_no_sep _ _ _ Hkey), append_nil_l. cbn [walk].
  by destruct (dict_get config key) as [[]|].
Qed.

End accessors.

(** ** The theorems with hypotheses, applied to the sample inputs *)

Lemma X2_deep_merge_lookup_witness :
  dict_get
    (ConfigLoader._deep_merge
       [ ("azure", JDict [ ("resource_group", JStr "rg-global");
                           ("location", JStr "eastus") ]) ]
       [ ("azure", JDict [ ("resource_group", JStr "rg-dev") ]);
         ("debug", JBool true) ])
    "azure"
  = Some (JDict (ConfigLoader._deep_merge
                   [ ("resource_group", JStr "rg-global");
                     ("location", JStr "eastus") ]
                   [ ("resource_group", JStr "rg-dev") ]))%string.
Proof.
  refine (proj2 (X2_deep_merge_lookup
                   [ ("azure", JDict [ ("resource_group", JStr "rg-global");
                                       ("location", JStr "eastus") ]) ]
                   [ ("azure", JDict [ ("resource_group", JStr "rg-dev") ]);
                     ("debug", JBool true) ]
                   "azure" _))%string.
  apply (bool_decide_unpack _). vm_compute. reflexivity.
Defined.

Lemma X3_deep_merge_override_wins_witness :
  ConfigLoader._get_nested_value
    (JDict (ConfigLoader._deep_merge
              [ ("azure", JDict [ ("resource_group", JStr "rg-global");
                                  ("location", JStr "eastus") ]) ]
              [ ("azure", JDict [ ("resource_group", JStr "rg-dev") ]);
                ("debug", JBool true) ]))
    "azure.resource_group"
  = JStr "rg-dev"%string.
Proof.
  apply (X3_deep_merge_override_wins
           [ ("azure", JDict [ ("resource_group", JStr "rg-global");
                               ("location", JStr "eastus") ]) ]
           [ ("azure", JDict [ ("resource_group", JStr "rg-dev") ]);
             ("debug", JBool true) ]
           "azure.resource_group" (JStr "rg-dev"))%string.
  - cbn. repeat split; apply (bool_decide_unpack _); vm_compute; reflexivity.
  - vm_compute. reflexivity.
  - discriminate.
  - discriminate.
Defined.

Lemma X6_merge_configs_lookup_witness :
  ∃ merged,
    ConfigLoader._merge_configs sample_loader sample_world sample_config
    = ConfigLoader.Ok merged ∧
    dict_get merged "_metadata"%string
    = Some (JDict [ ("environment", JStr "dev");
                    ("loaded_at", JStr "2024-01-01T00:00:00");
                    ("config_path", JStr "config/settings.yaml") ]%string).
Proof.
  destruct (ConfigLoader._merge_configs sample_loader sample_world sample_config)
    as [merged|e] eqn:Hm; [|by vm_compute in Hm].
  exists merged. split; [done|].
  refine (proj1 (X6_merge_configs_lookup sample_loader sample_world _
                   [ ("dev", JDict [ ("azure", JDict [ ("resource_group", JStr "rg-dev") ]);
                                     ("debug", JBool true) ]);
                     ("prod", JDict [ ("azure", JDict [ ("resource_group", JStr "rg-prod") ]);
                                      ("keyvault", JDict [ ("name", JStr "") ]) ]) ]%string
                   [ ("azure", JDict [ ("resource_group", JStr "rg-dev") ]);
                     ("debug", JBool true) ]%string
                   merged "azure"%string _ _ _ Hm)).
  - reflexivity.
  - reflexivity.
  - apply (bool_decide_unpack _). vm_compute. reflexivity.
Defined.

Lemma X8_load_then_get_witness :
  ∃ self' merged,
    ConfigLoader.load sample_world sample_loader None
    = (self', ConfigLoader.Ok merged) ∧
    ConfigLoader._validate (JDict merged) = ConfigLoader.Ok tt ∧
    ConfigLoader._get_nested_value (JDict merged) "_metadata.environment"
    = JStr (ConfigLoader._environment self').
Proof.
  destruct (ConfigLoader.load sample_world sample_loader None)
    as [self' [merged|e]] eqn:Hl; [|by vm_compute in Hl].
  exists self', merged. split; [done|].
  destruct (X8_load_then_get sample_world sample_loader self' None merged Hl)
    as (Hv & Hm & _).
  by split.
Defined.

Lemma X11_substitute_placeholder_witness :
  ConfigLoader._substitute_env_vars (ConfigLoader.environ sample_world)
    (JStr "https://${STORAGE_ACCOUNT}.dfs.core.windows.net")
  = JStr "https://sadev.dfs.core.windows.net".
Proof.
  apply (X11_substitute_placeholder (ConfigLoader.environ sample_world)
           "https://" "STORAGE_ACCOUNT" ".dfs.core.windows.net" "sadev").
  - reflexivity.
  - reflexivity.
  - reflexivity.
  - discriminate.
  - vm_compute. reflexivity.
Defined.

Lemma X12_average_speed_floor_inactive_witness :
  ∃ r, TrafficSimulator.generate_reading sample_intersection sample_time
         sample_draw = Some r ∧
       (10.5 <= TrafficReading.average_speed r)%Q ∧
       (TrafficReading.average_speed r <= 35)%Q.
Proof.
  destruct (TrafficSimulator.generate_reading sample_intersection sample_time
              sample_draw) as [r|] eqn:Hr; [|by vm_compute in Hr].
  exists r. split; [done|].
  refine (proj2 (X12_average_speed_floor_inactive sample_intersection
                   sample_time sample_draw r _ Hr)).
  cbn. lia.
Defined.

Lemma X13_reading_within_value_ranges_witness :
  ∃ r, TrafficSimulator.generate_reading sample_intersection sample_time
         sample_draw = Some r ∧
       0 <= TrafficReading.vehicle_count r <= 235 ∧
       0 <= TrafficReading.queue_length r <= 40 ∧
       (0 <= TrafficReading.wait_time_seconds r)%Q ∧
       (TrafficReading.wait_time_seconds r <= 120)%Q.
Proof.
  destruct (TrafficSimulator.generate_reading sample_intersection sample_time
              sample_draw) as [r|] eqn:Hr; [|by vm_compute in Hr].
  exists r. split; [done|].
  refine (proj1 (X13_reading_within_value_ranges sample_intersection
                   sample_time sample_draw r _ _ sample_draw_ok Hr)).
  - cbn. lia.
  - cbn. lia.
Defined.

Lemma X14_main_iteration_witness :
  ∃ rs, Main.readings [sample_intersection] sample_time (λ _, sample_draw)
        = Some rs ∧
        length rs = 1%nat.
Proof.
  destruct (X14_main_iteration [sample_intersection] sample_time
              (λ _, sample_draw)) as (rs & Hrs & Hlen & _).
  - repeat constructor; cbn; lia.
  - intros _. exact sample_draw_ok.
  - by exists rs.
Defined.

Lemma X15_condition_held_for_drawn_duration_witness :
  WeatherSimulator.condition_duration
    (WeatherSimulator.init (40.7128, -74.006)%Q) = 0 ∧
  (∀ k c,
     WeatherSimulator.run (WeatherSimulator.init (40.7128, -74.006)%Q)
       sample_weather_draws !! k = Some c →
     Z.of_nat k < 4 →
     WeatherReading.condition (WeatherSimulator.reading c) = rain ∧
     WeatherSimulator.condition_duration (WeatherSimulator.after c)
     = 4 - 1 - Z.of_nat k).
Proof.
  split; [reflexivity|].
  exact (proj1 (X15_condition_held_for_drawn_duration
                  (WeatherSimulator.init (40.7128, -74.006)%Q)
                  (WeatherSimulator.Build_Draw rain 4 0.5%Q 0.5%Q 0.5%Q 0.5%Q
                     0.5%Q "2024-01-01T08:00:00")
                  (tail sample_weather_draws) eq_refl)).
Defined.

Lemma X16_weather_reading_ranges_witness :
  WeatherSimulator.Draw_ok
    (WeatherSimulator.Build_Draw rain 4 0.5%Q 0.5%Q 0.5%Q 0.5%Q 0.5%Q
       "2024-01-01T08:00:00") ∧
  (55 <= WeatherReading.temperature_f
           (WeatherSimulator.generate_weather
              (WeatherSimulator.init (40.7128, -74.006)%Q)
              (WeatherSimulator.Build_Draw rain 4 0.5%Q 0.5%Q 0.5%Q 0.5%Q 0.5%Q
                 "2024-01-01T08:00:00")).2)%Q.
Proof.
  assert (Hok : WeatherSimulator.Draw_ok
                  (WeatherSimulator.Build_Draw rain 4 0.5%Q 0.5%Q 0.5%Q 0.5%Q
                     0.5%Q "2024-01-01T08:00:00"))
    by (repeat split; cbn; (lia || done)).
  split; [exact Hok|].
  exact (proj1 (X16_weather_reading_ranges
                  (WeatherSimulator.init (40.7128, -74.006)%Q) _ Hok)).
Defined.

Lemma X17_validation_rate_percentage_witness :
  0 <= 8 <= 10 ∧
  (ValidationStats.validation_rate
     (ValidationStats.mk 10 8 2 1 1 0 [] [] 0%Q) <= 100)%Q.
Proof.
  split; [lia|].
  refine (proj1 (proj2 (X17_validation_rate_percentage
                          (ValidationStats.mk 10 8 2 1 1 0 [] [] 0%Q) _))).
  cbn. lia.
Defined.

Lemma X20_grid_row_major_witness :
  ∃ l x,
    CityGrid._generate_intersections (0%Q, 0%Q) 2
      (λ _ _, CityGrid.Build_CellDraw 2 3 0.5%Q) = Some l ∧
    l !! 3%nat = Some x ∧
    Intersection.intersection_id x = "INT-0101"%string ∧
    Intersection.district x = downtown.
Proof.
  assert (H : ∃ l x,
            CityGrid._generate_intersections (0%Q, 0%Q) 2
              (λ _ _, CityGrid.Build_CellDraw 2 3 0.5%Q) = Some l ∧
            l !! 3%nat = Some x)
    by (eexists _, _; split; [vm_compute; reflexivity|reflexivity]).
  destruct H as (l & x & Hl & Hx). exists l, x. split; [done|]. split; [done|].
  destruct (X20_grid_row_major _ _ _ _ _ _ Hl Hx) as (_ & _ & Hid & _ & Hd & _).
  by split.
Defined.

Lemma X21_accessors_use_loaded_config_witness :
  ConfigLoader.get sample_world
    (ConfigLoader.mk "config/settings.yaml"
       (Some [ ("debug", JBool true); ("owner", JNull) ]%string) "dev")
    "owner" (JStr "nobody")
  = (ConfigLoader.mk "config/settings.yaml"
       (Some [ ("debug", JBool true); ("owner", JNull) ]%string) "dev",
     ConfigLoader.Ok (JStr "nobody")).
Proof.
  exact (proj2 (proj2 (X21_accessors_use_loaded_config sample_world
                         (ConfigLoader.mk "config/settings.yaml"
                            (Some [ ("debug", JBool true); ("owner", JNull) ]%string)
                            "dev")
                         [ ("debug", JBool true); ("owner", JNull) ]%string
                         "owner" (JStr "nobody") eq_refl eq_refl))).
Defined.

(** ** The coordinates of the grid *)

Section grid_coordinates.
Import CityGrid TrafficSimulator.

Lemma make_intersection_coordinates center N rnd i j x :
  make_intersection center N rnd i j = Some x →
  Intersection.latitude x
  = round (center.1 + (inject_Z i - inject_Z N / 2) * 0.01) 6 ∧
  Intersection.longitude x
  = round (center.2 + (inject_Z j - inject_Z N / 2) * 0.01) 6.
Proof.
  unfold make_intersection. destruct center as [lat_base lon_base].
  destruct (chr (65 + i)); cbn; [|done]. by intros [= <-].
Qed.

Lemma offset_bounds (base : Q) (N i : Z) (limit : Z) :
  0 <= i < N →
  (- inject_Z limit + inject_Z N * 0.005 <= base)%Q →
  (base <= inject_Z limit - inject_Z N * 0.005)%Q →
  (- inject_Z limit
   <= round (base + (inject_Z i - inject_Z N / 2) * 0.01) 6)%Q ∧
  (round (base + (inject_Z i - inject_Z N / 2) * 0.01) 6 <= inject_Z limit)%Q.
Proof.
  intros [Hi0 HiN] Hlo Hhi.
  assert (H0 : (0 <= inject_Z i)%Q) by (by rewrite <- (Zle_Qle 0)).
  assert (H1 : (inject_Z i <= inject_Z N)%Q) by (rewrite <- Zle_Qle; lia).
  split.
  - rewrite <- inject_Z_opp. apply round_ge. rewrite inject_Z_opp.
    set (n := inject_Z N) in *. set (k := inject_Z i) in *.
    set (m := inject_Z limit) in *.
    assert (Hhalf : (n / 2 == n * 0.5)%Q) by field. lra.
  - apply round_le.
    set (n := inject_Z N) in *. set (k := inject_Z i) in *.
    set (m := inject_Z limit) in *.
    assert (Hhalf : (n / 2 == n * 0.5)%Q) by field. lra.
Qed.

(** X22.  When the centre is at least half a grid width (N * 0.005
    degrees) away from the poles and from the date line, every
    intersection of the grid, and every reading generated for it, has a
    latitude and a longitude inside the validator's ranges for those
    fields. *)
Theorem X22_grid_coordinates_within_value_ranges (center : Q * Q) (N : Z)
    (rnd : Z → Z → CellDraw) (l : list Intersection.t) :
  (-90 + inject_Z N * 0.005 <= center.1)%Q →
  (center.1 <= 90 - inject_Z N * 0.005)%Q →
  (-180 + inject_Z N * 0.005 <= center.2)%Q →
  (center.2 <= 180 - inject_Z N * 0.005)%Q →
  _generate_intersections center N rnd = Some l →
  dict_get TrafficDataValidator.VALUE_RANGES "latitude"%string
  = Some (-90, 90)%Q ∧
  dict_get TrafficDataValidator.VALUE_RANGES "longitude"%string
  = Some (-180, 180)%Q ∧
  Forall (λ x,
            ((-90 <= Intersection.latitude x)%Q ∧
             (Intersection.latitude x <= 90)%Q ∧
             (-180 <= Intersection.longitude x)%Q ∧
             (Intersection.longitude x <= 180)%Q) ∧
            ∀ ts d r, generate_reading x ts d = Some r →
              TrafficReading.latitude r = Intersection.latitude x ∧
              TrafficReading.longitude r = Intersection.longitude x) l.
Proof.
  intros Hlat1 Hlat2 Hlon1 Hlon2 Hl. split; [done|]. split; [done|].
  pose proof (_generate_intersections_Some _ _ _ _ Hl) as H.
  apply Forall_lookup. intros k x Hk.
  destruct (Forall2_lookup_r _ _ _ k x H Hk) as ([i j] & Hc & Hx).
  apply list_elem_of_lookup_2, elem_of_cells in Hc as [Hi Hj].
  cbn [fst snd] in Hx.
  apply make_intersection_coordinates in Hx as [Hlat Hlon]. split.
  - rewrite Hlat, Hlon.
    destruct (offset_bounds center.1 N i 90 Hi) as [? ?]; [done|done|].
    destruct (offset_bounds center.2 N j 180 Hj) as [? ?]; [done|done|].
    done.
  - intros ts d r Hr. unfold generate_reading in Hr.
    destruct (get_weather_impact _); [|done]. cbn [mbind option_bind] in Hr.
    destruct (truediv _ _); [|done]. by injection Hr as <-.
Qed.

End grid_coordinates.

Lemma X22_grid_coordinates_within_value_ranges_witness :
  ∃ l, CityGrid._generate_intersections (40.7128, -74.006)%Q 10
         (λ _ _, CityGrid.Build_CellDraw 2 3 0.5%Q) = Some l ∧
       Forall (λ x, (-90 <= Intersection.latitude x)%Q ∧
                    (Intersection.latitude x <= 90)%Q ∧
                    (-180 <= Intersection.longitude x)%Q ∧
                    (Intersection.longitude x <= 180)%Q) l.
Proof.
  destruct (CityGrid._generate_intersections (40.7128, -74.006)%Q 10
              (λ _ _, CityGrid.Build_CellDraw 2 3 0.5%Q)) as [l|] eqn:Hl;
    [|by vm_compute in Hl].
  exists l. split; [done|].
  destruct (X22_grid_coordinates_within_value_ranges
              (40.7128, -74.006)%Q 10
              (λ _ _, CityGrid.Build_CellDraw 2 3 0.5%Q) l)
    as (_ & _ & H); [done|done|done|done|exact Hl|].
  eapply Forall_impl; [exact H|]. cbn. tauto.
Defined.
